(** * SpikingCerebellum: the current-driven Poisson generators

    A shallow embedding of [cd_poisson_generator] (linear current-to-rate
    map) and [rbf_poisson_generator] (Gaussian current-to-rate map), two NEST
    device nodes, and the properties their specification states.

    The C++ code computes on [double].  The embedding is written once, over
    an interface [Double] of the operations the code uses, and read in two
    ways:
    - [binary64]: IEEE 754 double precision (Rocq's primitive floats), the
      arithmetic the compiled code performs, with NaN, infinities, rounding
      and the narrowing of [(float)(to - from)];
    - [exact]: the real numbers, without rounding or special values.
    A third interpretation, [traced], runs either of them and keeps, with
    every value, the divisions that were performed to compute it.
    Statements about control flow are proved for every interpretation.
    Statements about magnitudes say for which interpretation they hold:
    what binary64 meets up to rounding only is stated for [exact], next to
    what holds of the doubles themselves. *)

From Stdlib Require Import ZArith Floats Reals Lra Lia List.
From stdpp Require Import gmap strings.

Local Open Scope Z_scope.

(** ** The arithmetic of [double] *)

Class Double (D : Type) : Type := {
  (** an integer literal, or a [long], converted to [double] *)
  dlit : Z -> D;
  (** the literal [1e-3] *)
  dmilli : D;
  dadd : D -> D -> D;
  dsub : D -> D -> D;
  dmul : D -> D -> D;
  ddiv : D -> D -> D;
  dneg : D -> D;
  (** [a < b], [a <= b], [a == b]; [a > b] is [b < a], [a >= b] is [b <= a]
      and [a != b] is the negation of [a == b] *)
  dltb : D -> D -> bool;
  dleb : D -> D -> bool;
  deqb : D -> D -> bool;
  (** [(float) n] for a [long] [n], widened back to [double] by the usual
      arithmetic conversions *)
  dfloat : Z -> D
}.

(** [std::exp], from the C++ standard library. *)
Class StdExp (D : Type) : Type := { dexp : D -> D }.

Declare Scope double_scope.
Delimit Scope double_scope with D.
Infix "+" := dadd : double_scope.
Infix "-" := dsub : double_scope.
Infix "*" := dmul : double_scope.
Infix "/" := ddiv : double_scope.
Notation "- x" := (dneg x) : double_scope.
Infix "<?" := dltb : double_scope.
Infix "<=?" := dleb : double_scope.
Infix "==?" := deqb (at level 70) : double_scope.
Notation "a >? b" := (dltb b a) (only parsing) : double_scope.
Notation "a >=? b" := (dleb b a) (only parsing) : double_scope.
Notation "a !=? b" := (negb (deqb a b)) (at level 70) : double_scope.

(** *** IEEE 754 binary64 *)

Module B64.

(** Conversion of an integer to binary64, to nearest, ties to even. *)
Definition of_long (n : Z) : float :=
  SF2Prim (binary_normalize prec emax n 0 false).

(** Conversion of an integer to binary32 (24 bits of precision), whose
    values are binary64 values. *)
Definition of_long_float32 (n : Z) : float :=
  SF2Prim (binary_normalize 24 128 n 0 false).

(** The double nearest to [1e-3]. *)
Definition milli : float := 0x1.0624dd2f1a9fcp-10%float.

End B64.

#[export] Instance binary64 : Double float := {|
  dlit := B64.of_long;
  dmilli := B64.milli;
  dadd := PrimFloat.add;
  dsub := PrimFloat.sub;
  dmul := PrimFloat.mul;
  ddiv := PrimFloat.div;
  dneg := PrimFloat.opp;
  dltb := PrimFloat.ltb;
  dleb := PrimFloat.leb;
  deqb := PrimFloat.eqb;
  dfloat := B64.of_long_float32
|}.

(** *** Exact real arithmetic *)

Module Exact.

Definition ltb (a b : R) : bool := if Rlt_dec a b then true else false.
Definition leb (a b : R) : bool := if Rle_dec a b then true else false.
Definition eqb (a b : R) : bool := if Req_dec_T a b then true else false.

End Exact.

#[export] Instance exact : Double R := {|
  dlit := IZR;
  dmilli := (1 / 1000)%R;
  dadd := Rplus;
  dsub := Rminus;
  dmul := Rmult;
  ddiv := Rdiv;
  dneg := Ropp;
  dltb := Exact.ltb;
  dleb := Exact.leb;
  deqb := Exact.eqb;
  dfloat := IZR
|}.

#[export] Instance exact_exp : StdExp R := {| dexp := exp |}.

(** *** Doubles that remember their divisions *)

Module Traced.
Section Traced.
Context {D : Type} {arith : Double D}.

(** A value with the divisions, numerator and denominator, that were
    performed to compute it, in the order of evaluation. *)
Definition T : Type := D * list (D * D).

Definition value (x : T) : D := fst x.
Definition divisions (x : T) : list (D * D) := snd x.

(** A literal, or a value read from outside: nothing was divided. *)
Definition pure (v : D) : T := (v, []).

Definition lift1 (f : D -> D) (x : T) : T := (f (value x), divisions x).

Definition lift2 (f : D -> D -> D) (x y : T) : T :=
  (f (value x) (value y), divisions x ++ divisions y).

(** [x / y]: the quotient, and one more division. *)
Definition div (x y : T) : T :=
  (ddiv (value x) (value y),
   divisions x ++ divisions y ++ [(value x, value y)]).

(** A comparison looks at the values. *)
Definition test (f : D -> D -> bool) (x y : T) : bool := f (value x) (value y).

End Traced.
Arguments T : clear implicits.
End Traced.

#[export] Instance traced {D : Type} {arith : Double D} : Double (Traced.T D) := {|
  dlit := fun n => Traced.pure (dlit n);
  dmilli := Traced.pure dmilli;
  dadd := Traced.lift2 dadd;
  dsub := Traced.lift2 dsub;
  dmul := Traced.lift2 dmul;
  ddiv := Traced.div;
  dneg := Traced.lift1 dneg;
  dltb := Traced.test dltb;
  dleb := Traced.test dleb;
  deqb := Traced.test deqb;
  dfloat := fun n => Traced.pure (dfloat n)
|}.

(** ** What the devices borrow from the simulation kernel *)

(** [librandom::PoissonRandomDev::ldev]: a deviate of the Poisson
    distribution with mean [lambda], drawn from a random source. *)
Class RandomDev (D : Type) : Type := {
  RngPtr : Type;
  ldev : D -> RngPtr -> Z * RngPtr
}.

(** A scripted random source: the deviates to come, in order. *)
#[export] Instance scripted (D : Type) : RandomDev D := {|
  RngPtr := list Z;
  ldev := fun _ r => match r with [] => (0, []) | n :: r' => (n, r') end
|}.

(** [DictionaryDatum], restricted to entries that hold a [double]. *)
Abbreviation Dictionary D := (gmap string D).

(** [updateValue<double>(d, name, x)]: [x] takes the entry's value when the
    dictionary has one under [name], and keeps its own otherwise. *)
Definition updateValue {D : Type} (d : Dictionary D) (name : string) (x : D) : D :=
  match d !! name with
  | Some v => v
  | None => x
  end.

(** [def<double>(d, name, value)]: the dictionary gets the entry, in place
    of an older one under [name]. *)
Definition def {D : Type} (d : Dictionary D) (name : string) (value : D)
  : Dictionary D :=
  <[name := value]> d.

(** [nest::RecordablesMap<HostNode>], a [std::map] from the name of a
    quantity to the member function that reads it. *)
Abbreviation RecordablesMap HostNode D := (gmap string (HostNode -> D)).

(** [insert_(name, f)], which is [std::map::insert]: an entry that the name
    has already stays. *)
Definition insert_ {HostNode D : Type} (name : string) (f : HostNode -> D)
    (m : RecordablesMap HostNode D) : RecordablesMap HostNode D :=
  match m !! name with
  | Some _ => m
  | None => <[name := f]> m
  end.

(** A [CurrentEvent], as far as [handle] reads it: the delivery step
    relative to the origin of the slice, the weight and the current. *)
Record CurrentEvent (D : Type) : Type := {
  rel_delivery_steps : Z;
  weight : D;
  current : D
}.
Arguments rel_delivery_steps {D}.
Arguments weight {D}.
Arguments current {D}.

(** [nest::RingBuffer], by relative delivery step. *)
Definition RingBuffer (D : Type) : Type := Z -> D.

(** [add_value(offs, v)] sums [v] into the slot. *)
Definition add_value {D} {arith : Double D} (offs : Z) (v : D) (b : RingBuffer D)
  : RingBuffer D :=
  fun k => if k =? offs then (b k + v)%D else b k.

(** [get_value(offs)] returns the slot's value and clears the slot. *)
Definition get_value {D} {arith : Double D} (offs : Z) (b : RingBuffer D)
  : D * RingBuffer D :=
  (b offs, fun k => if k =? offs then dlit 0 else b k).

(** [clear()] *)
Definition clear {D} {arith : Double D} : RingBuffer D := fun _ => dlit 0.

(** What a run leaves observable, in the order it happens. *)
Inductive action (D : Type) : Type :=
| GetValue (lag : Z) (v : D)
    (**r [B_.currents_.get_value(lag)] returned [v] *)
| SetLambda (lambda : D)
    (**r [V_.poisson_dev_.set_lambda(lambda)] *)
| Ldev (lambda : D) (n : Z)
    (**r [V_.poisson_dev_.ldev(rng)], with mean [lambda], returned [n] *)
| SendSpike (lag : Z) (multiplicity : Z)
    (**r a [SpikeEvent] handed to the kernel *)
| SendDSSpike (lag : Z)
    (**r a [DSSpikeEvent] handed to the kernel *)
| Handle (receiver : Z) (lag : Z) (multiplicity : Z)
    (**r [e.get_receiver().handle(e)] *)
| RecordData (step : Z).
    (**r [B_.logger_.record_data(step)] *)
Arguments GetValue {D}.
Arguments SetLambda {D}.
Arguments Ldev {D}.
Arguments SendSpike {D}.
Arguments SendDSSpike {D}.
Arguments Handle {D}.
Arguments RecordData {D}.

(** Exceptions of the kernel that the devices throw. *)
Inductive exception : Type :=
| BadProperty (msg : string)
| UnknownReceptorType (receptor_type : Z).

(** The outcome of a call that may throw. *)
Inductive outcome (A : Type) : Type :=
| Returns (a : A)
| Throws (e : exception).
Arguments Returns {A}.
Arguments Throws {A}.

(** ** State passing with a log of actions *)

Section Sim.
Context {St D : Type}.

(** A computation on a state [St] that logs the actions it performs. *)
Definition Sim (A : Type) : Type := St -> A * St * list (action D).

Definition ret {A} (a : A) : Sim A := fun s => (a, s, []).

Definition bind {A B} (m : Sim A) (k : A -> Sim B) : Sim B :=
  fun s =>
    let '(a, s1, l1) := m s in
    let '(b, s2, l2) := k a s1 in
    (b, s2, l1 ++ l2).

Definition get : Sim St := fun s => (s, s, []).
Definition modify (f : St -> St) : Sim unit := fun s => (tt, f s, []).
Definition emit (a : action D) : Sim unit := fun s => (tt, s, [a]).

(** The final state and the log of a computation. *)
Definition state_of {A} (r : A * St * list (action D)) : St := snd (fst r).
Definition log_of {A} (r : A * St * list (action D)) : list (action D) := snd r.

(** [for (long lag = first; n more iterations; ++lag) body(lag)], where
    [a] stands for the local variables that the body updates. *)
Fixpoint for_each_lag {A} (n : nat) (lag : Z) (body : Z -> A -> Sim A) (a : A)
  : Sim A :=
  match n with
  | O => ret a
  | S n' => bind (body lag a) (for_each_lag n' (lag + 1) body)
  end.

(** [for (long lag = from; lag < to; ++lag) body(lag)] *)
Definition for_lags {A} (from to : Z) (body : Z -> A -> Sim A) (a : A) : Sim A :=
  for_each_lag (Z.to_nat (to - from)) from body a.

(** [for (x : xs) body(x)] *)
Fixpoint for_each {X} (xs : list X) (body : X -> Sim unit) : Sim unit :=
  match xs with
  | [] => ret tt
  | x :: xs' => bind (body x) (fun _ => for_each xs' body)
  end.

End Sim.

Declare Scope sim_scope.
Delimit Scope sim_scope with sim.
Notation "x <- m ;; k" := (bind m (fun x => k))
  (at level 100, m at next level, k at level 200, right associativity) : sim_scope.
Notation "m ;; k" := (bind m (fun _ => k))
  (at level 100, k at level 200, right associativity) : sim_scope.
Local Open Scope sim_scope.

(** ** cd_poisson_generator: the linear variant *)

Module cd_poisson_generator.
Section Model.
Context {D : Type} {arith : Double D} {random : RandomDev D}.

(** [nest::Time::get_resolution().get_ms()] *)
Variable resolution_ms : D.

Record Parameters_ : Type := {
  min_rate_ : D;
  max_rate_ : D;
  min_current_ : D;
  max_current_ : D
}.

Record State_ : Type := {
  rate_ : D;
  input_current_ : D
}.

(** [Buffers_], without the data logger. *)
Record Buffers_ : Type := {
  currents_ : RingBuffer D;
  step_ : D
}.

(** [Variables_]: the Poisson deviate generator, which is its mean. *)
Record Variables_ : Type := {
  poisson_dev_ : D
}.

(** The node, and the random source of its thread. *)
Record cd_poisson_generator : Type := {
  P_ : Parameters_;
  V_ : Variables_;
  S_ : State_;
  B_ : Buffers_;
  rng : RngPtr
}.

Definition with_S (s : State_) (n : cd_poisson_generator) : cd_poisson_generator :=
  {| P_ := P_ n; V_ := V_ n; S_ := s; B_ := B_ n; rng := rng n |}.
Definition with_V (v : Variables_) (n : cd_poisson_generator) : cd_poisson_generator :=
  {| P_ := P_ n; V_ := v; S_ := S_ n; B_ := B_ n; rng := rng n |}.
Definition with_B (b : Buffers_) (n : cd_poisson_generator) : cd_poisson_generator :=
  {| P_ := P_ n; V_ := V_ n; S_ := S_ n; B_ := b; rng := rng n |}.
Definition with_rng (r : RngPtr) (n : cd_poisson_generator) : cd_poisson_generator :=
  {| P_ := P_ n; V_ := V_ n; S_ := S_ n; B_ := B_ n; rng := r |}.

(** [Parameters_::Parameters_()] *)
Definition Parameters_default : Parameters_ :=
  {| min_rate_ := dlit 1; max_rate_ := dlit 10;
     min_current_ := dlit 0; max_current_ := dlit 1 |}.

(** [State_::State_(const Parameters_&)] *)
Definition State_default (p : Parameters_) : State_ :=
  {| rate_ := dlit 5; input_current_ := dlit 0 |}.

(** [Parameters_::set]: the fields are overwritten in place, then checked;
    the object keeps the new values also when the check throws. *)
Definition Parameters_set (d : Dictionary D) (p : Parameters_)
  : Parameters_ * outcome unit :=
  let p' := {| min_rate_ := updateValue d "min_rate" (min_rate_ p);
               max_rate_ := updateValue d "max_rate" (max_rate_ p);
               min_current_ := updateValue d "min_current" (min_current_ p);
               max_current_ := updateValue d "max_current" (max_current_ p) |} in
  if (min_rate_ p' <? dlit 0)%D || (max_rate_ p' <? dlit 0)%D
  then (p', Throws (BadProperty
                      "The min_rate and max_rate parameters cannot be negative."))
  else (p', Returns tt).

(** [State_::set] *)
Definition State_set (d : Dictionary D) (p : Parameters_) (s : State_) : State_ :=
  {| rate_ := updateValue d "rate" (rate_ s);
     input_current_ := updateValue d "I" (input_current_ s) |}.

(** [set_status]: the dictionary is applied to copies, which replace the
    node's parameters and state only when nothing was thrown. *)
Definition set_status (d : Dictionary D) (n : cd_poisson_generator)
  : cd_poisson_generator * outcome unit :=
  let ptmp := P_ n in
  match Parameters_set d ptmp with
  | (_, Throws e) => (n, Throws e)
  | (ptmp, Returns _) =>
      let stmp := S_ n in
      let stmp := State_set d ptmp stmp in
      ({| P_ := ptmp; V_ := V_ n; S_ := stmp; B_ := B_ n; rng := rng n |},
       Returns tt)
  end.

(** The rate of an input current: the block that [calibrate] and [update]
    both contain. *)
Definition rate_of_current (p : Parameters_) (input_current : D) : D :=
  if (input_current <=? min_current_ p)%D then min_rate_ p
  else if (input_current >=? max_current_ p)%D then max_rate_ p
  else ((input_current - min_current_ p) / (max_current_ p - min_current_ p)
        * (max_rate_ p - min_rate_ p) + min_rate_ p)%D.

(** [V_.poisson_dev_.set_lambda(l)] *)
Definition set_lambda (l : D) : Sim (St := cd_poisson_generator) unit :=
  modify (with_V {| poisson_dev_ := l |}) ;;
  emit (SetLambda l).

(** [V_.poisson_dev_.ldev(rng)] *)
Definition poisson_ldev : Sim (St := cd_poisson_generator) Z :=
  n <- get ;;
  let '(k, r) := ldev (poisson_dev_ (V_ n)) (rng n) in
  modify (with_rng r) ;;
  emit (Ldev (poisson_dev_ (V_ n)) k) ;;
  ret k.

(** [B_.currents_.get_value(lag)] *)
Definition currents_get_value (lag : Z) : Sim (St := cd_poisson_generator) D :=
  n <- get ;;
  let '(v, b) := get_value lag (currents_ (B_ n)) in
  modify (with_B {| currents_ := b; step_ := step_ (B_ n) |}) ;;
  emit (GetValue lag v) ;;
  ret v.

(** [calibrate] *)
Definition calibrate : Sim (St := cd_poisson_generator) unit :=
  n <- get ;;
  let rate := rate_of_current (P_ n) (input_current_ (S_ n)) in
  modify (with_S {| rate_ := rate; input_current_ := input_current_ (S_ n) |}) ;;
  set_lambda (resolution_ms * rate * dmilli)%D.

(** One iteration of the loop of [update]. *)
Definition update_step (T lag : Z) : Sim (St := cd_poisson_generator) unit :=
  new_current <- currents_get_value lag ;;
  n <- get ;;
  (if (input_current_ (S_ n) !=? new_current)%D then
     let rate := rate_of_current (P_ n) new_current in
     modify (with_S {| rate_ := rate; input_current_ := new_current |}) ;;
     set_lambda (resolution_ms * rate * dmilli)%D
   else ret tt) ;;
  n <- get ;;
  (if (rate_ (S_ n) >? dlit 0)%D then
     n_spikes <- poisson_ldev ;;
     if n_spikes >? 0 then emit (SendSpike lag n_spikes) else ret tt
   else ret tt) ;;
  emit (RecordData (T + lag)).

(** [update(T, from, to)], for the slice [[from, to)] at the time [T], in
    steps; the two assertions state what the kernel guarantees of [from] and
    [to], among it [from < to]. *)
Definition update (T from to : Z) : Sim (St := cd_poisson_generator) unit :=
  for_lags from to (fun lag _ => update_step T lag) tt.

(** [handle(CurrentEvent&)], for an event of current [c] and weight [w]
    due at the relative step [steps]. *)
Definition handle (steps : Z) (w c : D) (n : cd_poisson_generator)
  : cd_poisson_generator :=
  with_B {| currents_ := add_value steps (w * c)%D (currents_ (B_ n));
            step_ := step_ (B_ n) |} n.

(** [Parameters_::get] *)
Definition Parameters_get (p : Parameters_) (d : Dictionary D) : Dictionary D :=
  let d := def d "min_rate" (min_rate_ p) in
  let d := def d "max_rate" (max_rate_ p) in
  let d := def d "min_current" (min_current_ p) in
  def d "max_current" (max_current_ p).

(** [State_::get] *)
Definition State_get (s : State_) (d : Dictionary D) : Dictionary D :=
  let d := def d "rate" (rate_ s) in
  def d "I" (input_current_ s).

(** [get_status] *)
Definition get_status (n : cd_poisson_generator) (d : Dictionary D)
  : Dictionary D :=
  let d := Parameters_get (P_ n) d in
  State_get (S_ n) d.

(** [get_rate_] and [get_current_], the access functions of the data
    logger. *)
Definition get_rate_ (n : cd_poisson_generator) : D := rate_ (S_ n).
Definition get_current_ (n : cd_poisson_generator) : D := input_current_ (S_ n).

(** [RecordablesMap<cd_poisson_generator>::create] *)
Definition recordablesMap_ : RecordablesMap cd_poisson_generator D :=
  let m := insert_ "rate" get_rate_ ∅ in
  insert_ "I" get_current_ m.

(** [init_state_(proto)] *)
Definition init_state_ (proto n : cd_poisson_generator) : cd_poisson_generator :=
  with_S (S_ proto) n.

(** [init_buffers_], without the data logger. *)
Definition init_buffers_ (n : cd_poisson_generator) : cd_poisson_generator :=
  with_B {| currents_ := clear; step_ := resolution_ms |} n.

(** The kernel delivers the events of a list, one [handle] after the
    other. *)
Definition handle_all (es : list (CurrentEvent D)) (n : cd_poisson_generator)
  : cd_poisson_generator :=
  fold_left (fun n e => handle (rel_delivery_steps e) (weight e) (current e) n)
    es n.

End Model.
End cd_poisson_generator.

(** ** rbf_poisson_generator: the Gaussian variant *)

Module rbf_poisson_generator.
Section Model.
Context {D : Type} {arith : Double D} {libm : StdExp D} {random : RandomDev D}.

(** [nest::Time::get_resolution().get_ms()] *)
Variable resolution_ms : D.

(** The members are those that the constructors of
    [rbf_poisson_generator.cpp] initialise. *)
Record Parameters_ : Type := {
  min_rate_rbf_ : D;
  max_rate_rbf_ : D;
  mean_current_rbf_ : D;
  sigma_current_rbf_ : D
}.

Record State_ : Type := {
  rate_ : D
}.

(** [Buffers_], without the data logger. *)
Record Buffers_ : Type := {
  currents_ : RingBuffer D;
  step_ : D
}.

(** [Variables_]: the Poisson deviate generator, which is its mean. *)
Record Variables_ : Type := {
  poisson_dev_ : D
}.

(** The node, with what the kernel holds for it: the random source of its
    thread and the receivers of its outgoing connections. *)
Record rbf_poisson_generator : Type := {
  P_ : Parameters_;
  V_ : Variables_;
  S_ : State_;
  B_ : Buffers_;
  rng : RngPtr;
  targets : list Z
}.

Definition with_S (s : State_) (n : rbf_poisson_generator) : rbf_poisson_generator :=
  {| P_ := P_ n; V_ := V_ n; S_ := s; B_ := B_ n; rng := rng n;
     targets := targets n |}.
Definition with_V (v : Variables_) (n : rbf_poisson_generator) : rbf_poisson_generator :=
  {| P_ := P_ n; V_ := v; S_ := S_ n; B_ := B_ n; rng := rng n;
     targets := targets n |}.
Definition with_B (b : Buffers_) (n : rbf_poisson_generator) : rbf_poisson_generator :=
  {| P_ := P_ n; V_ := V_ n; S_ := S_ n; B_ := b; rng := rng n;
     targets := targets n |}.
Definition with_rng (r : RngPtr) (n : rbf_poisson_generator) : rbf_poisson_generator :=
  {| P_ := P_ n; V_ := V_ n; S_ := S_ n; B_ := B_ n; rng := r;
     targets := targets n |}.

(** A [DSSpikeEvent], as far as the device touches it. *)
Record DSSpikeEvent : Type := {
  receiver : Z;
  stamp_lag : Z;
  multiplicity : Z
}.

(** [Parameters_::Parameters_()] *)
Definition Parameters_default : Parameters_ :=
  {| min_rate_rbf_ := dlit 1; max_rate_rbf_ := dlit 10;
     mean_current_rbf_ := dlit 0; sigma_current_rbf_ := dlit 1 |}.

(** [State_::State_(const Parameters_&)] *)
Definition State_default (p : Parameters_) : State_ := {| rate_ := dlit 5 |}.

(** [Parameters_::set]: the fields are overwritten in place, then checked;
    the object keeps the new values also when the check throws. *)
Definition Parameters_set (d : Dictionary D) (p : Parameters_)
  : Parameters_ * outcome unit :=
  let p' := {| min_rate_rbf_ := updateValue d "min_rate" (min_rate_rbf_ p);
               max_rate_rbf_ := updateValue d "max_rate" (max_rate_rbf_ p);
               mean_current_rbf_ :=
                 updateValue d "mean_current" (mean_current_rbf_ p);
               sigma_current_rbf_ :=
                 updateValue d "sigma_current" (sigma_current_rbf_ p) |} in
  if (min_rate_rbf_ p' <? dlit 0)%D || (max_rate_rbf_ p' <? dlit 0)%D
     || (min_rate_rbf_ p' >? max_rate_rbf_ p')%D
  then (p', Throws (BadProperty
                      "The min_rate and max_rate parameters cannot be negative."))
  else (p', Returns tt).

(** [State_::set] *)
Definition State_set (d : Dictionary D) (p : Parameters_) (s : State_) : State_ :=
  {| rate_ := updateValue d "rate" (rate_ s) |}.

(** [V_.poisson_dev_.set_lambda(l)] *)
Definition set_lambda (l : D) : Sim (St := rbf_poisson_generator) unit :=
  modify (with_V {| poisson_dev_ := l |}) ;;
  emit (SetLambda l).

(** [V_.poisson_dev_.ldev(rng)] *)
Definition poisson_ldev : Sim (St := rbf_poisson_generator) Z :=
  n <- get ;;
  let '(k, r) := ldev (poisson_dev_ (V_ n)) (rng n) in
  modify (with_rng r) ;;
  emit (Ldev (poisson_dev_ (V_ n)) k) ;;
  ret k.

(** [B_.currents_.get_value(lag)] *)
Definition currents_get_value (lag : Z) : Sim (St := rbf_poisson_generator) D :=
  n <- get ;;
  let '(v, b) := get_value lag (currents_ (B_ n)) in
  modify (with_B {| currents_ := b; step_ := step_ (B_ n) |}) ;;
  emit (GetValue lag v) ;;
  ret v.

(** [calibrate] *)
Definition calibrate : Sim (St := rbf_poisson_generator) unit :=
  n <- get ;;
  set_lambda (resolution_ms * rate_ (S_ n) * dmilli)%D.

(** [event_hook(DSSpikeEvent&)] *)
Definition event_hook (e : DSSpikeEvent) : Sim (St := rbf_poisson_generator) unit :=
  n_spikes <- poisson_ldev ;;
  if n_spikes >? 0 then
    let e := {| receiver := receiver e; stamp_lag := stamp_lag e;
                multiplicity := n_spikes |} in
    emit (Handle (receiver e) (stamp_lag e) (multiplicity e))
  else ret tt.

(** [network()->send( *this, se, lag )] for a [DSSpikeEvent]: the kernel
    passes the event to the sender's [event_hook], once for each target of
    the sender, before [send] returns. *)
Definition network_send (lag : Z) : Sim (St := rbf_poisson_generator) unit :=
  emit (SendDSSpike lag) ;;
  n <- get ;;
  for_each (targets n)
    (fun t => event_hook {| receiver := t; stamp_lag := lag; multiplicity := 1 |}).

(** One iteration of the loop of [update], on the local [current_sum]. *)
Definition update_step (T lag : Z) (current_sum : D)
  : Sim (St := rbf_poisson_generator) D :=
  v <- currents_get_value lag ;;
  let current_sum := (current_sum + v)%D in
  network_send lag ;;
  emit (RecordData (T + lag)) ;;
  ret current_sum.

(** The argument of [std::exp] in the line that computes [gaussian]. *)
Definition gaussian_argument (p : Parameters_) (average_current : D) : D :=
  (- ((average_current - mean_current_rbf_ p)
      * (average_current - mean_current_rbf_ p))
   / (dlit 2 * sigma_current_rbf_ p * sigma_current_rbf_ p))%D.

(** The rate of an average current: the lines that follow the loop. *)
Definition rate_of_average (p : Parameters_) (average_current : D) : D :=
  let gaussian := dexp (gaussian_argument p average_current) in
  (min_rate_rbf_ p + gaussian * (max_rate_rbf_ p - min_rate_rbf_ p))%D.

(** [update(T, from, to)], for the slice [[from, to)] at the time [T], in
    steps; the two assertions state what the kernel guarantees of [from] and
    [to], among it [from < to]. *)
Definition update (T from to : Z) : Sim (St := rbf_poisson_generator) unit :=
  current_sum <- for_lags from to (update_step T) (dlit 0) ;;
  let average_current := (current_sum / dfloat (to - from))%D in
  n <- get ;;
  let rate := rate_of_average (P_ n) average_current in
  modify (with_S {| rate_ := rate |}) ;;
  set_lambda (resolution_ms * rate * dmilli)%D.

(** [handle(CurrentEvent&)], for an event of current [c] and weight [w]
    due at the relative step [steps]. *)
Definition handle (steps : Z) (w c : D) (n : rbf_poisson_generator)
  : rbf_poisson_generator :=
  with_B {| currents_ := add_value steps (w * c)%D (currents_ (B_ n));
            step_ := step_ (B_ n) |} n.

(** [Parameters_::get] *)
Definition Parameters_get (p : Parameters_) (d : Dictionary D) : Dictionary D :=
  let d := def d "min_rate" (min_rate_rbf_ p) in
  let d := def d "max_rate" (max_rate_rbf_ p) in
  let d := def d "mean_current" (mean_current_rbf_ p) in
  def d "sigma_current" (sigma_current_rbf_ p).

(** [State_::get] *)
Definition State_get (s : State_) (d : Dictionary D) : Dictionary D :=
  def d "rate" (rate_ s).

(** [init_state_(proto)] *)
Definition init_state_ (proto n : rbf_poisson_generator) : rbf_poisson_generator :=
  with_S (S_ proto) n.

(** [init_buffers_], without the data logger. *)
Definition init_buffers_ (n : rbf_poisson_generator) : rbf_poisson_generator :=
  with_B {| currents_ := clear; step_ := resolution_ms |} n.

(** The kernel delivers the events of a list, one [handle] after the
    other. *)
Definition handle_all (es : list (CurrentEvent D)) (n : rbf_poisson_generator)
  : rbf_poisson_generator :=
  fold_left (fun n e => handle (rel_delivery_steps e) (weight e) (current e) n)
    es n.

End Model.
End rbf_poisson_generator.

(** ** Reading a log *)

Section Logs.
Context {D : Type}.

(** The deviates drawn, each with the mean it was drawn for. *)
Definition draws (l : list (action D)) : list (D * Z) :=
  flat_map (fun a => match a with Ldev lam n => [(lam, n)] | _ => [] end) l.

(** The deviates drawn. *)
Definition deviates (l : list (action D)) : list Z := map snd (draws l).

(** The spike events handed to the kernel: lag and multiplicity. *)
Definition spikes (l : list (action D)) : list (Z * Z) :=
  flat_map (fun a => match a with SendSpike lag m => [(lag, m)] | _ => [] end) l.

(** The spike events handed to a receiver: receiver, lag and multiplicity. *)
Definition handled (l : list (action D)) : list (Z * Z * Z) :=
  flat_map (fun a => match a with Handle r lag m => [(r, lag, m)] | _ => [] end) l.

(** The multiplicities of the spike events sent, of either kind. *)
Definition multiplicities (l : list (action D)) : list Z :=
  flat_map (fun a => match a with
                     | SendSpike _ m => [m]
                     | Handle _ _ m => [m]
                     | _ => []
                     end) l.

(** The means given to the Poisson device. *)
Definition lambdas (l : list (action D)) : list D :=
  flat_map (fun a => match a with SetLambda lam => [lam] | _ => [] end) l.

(** The values taken out of the ring buffer, each with its lag. *)
Definition drained (l : list (action D)) : list (Z * D) :=
  flat_map (fun a => match a with GetValue lag v => [(lag, v)] | _ => [] end) l.

(** The events that a deviate [n] drawn at [x] gives rise to. *)
Definition coalesce {X} (x : X) (n : Z) : list (X * Z) :=
  if n >? 0 then [(x, n)] else [].

(** A log sends one spike event per positive deviate, with the deviate as
    its multiplicity, and nothing else. *)
Definition coalesced (l : list (action D)) : Prop :=
  multiplicities l = List.filter (fun n => n >? 0) (deviates l).

(** A log of the loop of [rbf_poisson_generator::update]: the Poisson device
    keeps its mean, every deviate is drawn for the mean [lam], and spike
    events are coalesced. *)
Definition loop_log (lam : D) (l : list (action D)) : Prop :=
  lambdas l = [] /\ Forall (fun d => fst d = lam) (draws l) /\ coalesced l.

(** The steps for which data was logged. *)
Definition recorded (l : list (action D)) : list Z :=
  flat_map (fun a => match a with RecordData step => [step] | _ => [] end) l.

End Logs.

(** The slots [lag], [lag + 1], ... ([n] of them) of a ring buffer, each with
    the value it holds. *)
Fixpoint entries {D} (b : RingBuffer D) (lag : Z) (n : nat) : list (Z * D) :=
  match n with
  | O => []
  | S n' => (lag, b lag) :: entries b (lag + 1) n'
  end.

(** The entries of the slice [[from, to)]. *)
Definition slice {D} (b : RingBuffer D) (from to : Z) : list (Z * D) :=
  entries b from (Z.to_nat (to - from)).

(** The sum that the loop of [rbf_poisson_generator::update] builds: the
    values of the slice added, in order, to [0.0]. *)
Definition slice_sum {D} {arith : Double D} (b : RingBuffer D) (from to : Z) : D :=
  fold_left dadd (map snd (slice b from to)) (dlit 0).

(** ** The vocabulary of the specification *)

(** The exception that both [Parameters_::set] throw. *)
Definition bad_rates : exception :=
  BadProperty "The min_rate and max_rate parameters cannot be negative.".

Section Laws.
Import cd_poisson_generator.
Context {D : Type} {arith : Double D} {random : RandomDev D}.

(** The linear map of the specification, for a rate [r] that the device
    computed from the input current [I]; the saturation at [max_current]
    applies to currents above [min_current] only. *)
Definition linear_law (p : Parameters_) (I r : D) : Prop :=
  ((I <=? min_current_ p)%D = true -> r = min_rate_ p) /\
  ((I <=? min_current_ p)%D = false -> (I >=? max_current_ p)%D = true ->
   r = max_rate_ p) /\
  ((I <=? min_current_ p)%D = false -> (I >=? max_current_ p)%D = false ->
   r = ((I - min_current_ p) / (max_current_ p - min_current_ p)
        * (max_rate_ p - min_rate_ p) + min_rate_ p)%D).


(** The parameters of a traced run, without the traces. *)
Definition untraced (p : Parameters_ (D := Traced.T D)) : Parameters_ (D := D) :=
  {| min_rate_ := Traced.value (min_rate_ p);
     max_rate_ := Traced.value (max_rate_ p);
     min_current_ := Traced.value (min_current_ p);
     max_current_ := Traced.value (max_current_ p) |}.

(** The node when the step at [lag] has taken its value out of the ring
    buffer and, if that value is a new one, has computed rate and mean. *)
Definition after_rate (resolution_ms : D) (lag : Z) (n : cd_poisson_generator)
  : cd_poisson_generator :=
  let v := currents_ (B_ n) lag in
  let n1 := with_B {| currents_ := snd (get_value lag (currents_ (B_ n)));
                      step_ := step_ (B_ n) |} n in
  if (input_current_ (S_ n) !=? v)%D then
    let rate := rate_of_current (P_ n) v in
    with_V {| poisson_dev_ := (resolution_ms * rate * dmilli)%D |}
      (with_S {| rate_ := rate; input_current_ := v |} n1)
  else n1.

End Laws.

(** The steps [lag], [lag + 1], ... ([n] of them). *)
Fixpoint steps_from (lag : Z) (n : nat) : list Z :=
  match n with
  | O => []
  | S n' => lag :: steps_from (lag + 1) n'
  end.

(** The steps of the slice [[from, to)]. *)
Definition lags (from to : Z) : list Z := steps_from from (Z.to_nat (to - from)).

(** What the slot [k] of a ring buffer holds when the events [es] have been
    handled, in this order, and it held [x] before: the weighted currents
    due at [k], added to [x] one by one. *)
Definition arrivals {D} {arith : Double D} (k : Z) (es : list (CurrentEvent D))
    (x : D) : D :=
  fold_left (fun acc e => if k =? rel_delivery_steps e
                          then (acc + weight e * current e)%D else acc) es x.

Section Invariants.
Import cd_poisson_generator.
Context {D : Type} {arith : Double D} {random : RandomDev D}.

(** The state of a linear node is consistent when its rate is the rate of
    the last input current under the node's parameters, and the mean of the
    Poisson device is that of the rate. *)
Definition consistent (resolution_ms : D) (n : cd_poisson_generator) : Prop :=
  rate_ (S_ n) = rate_of_current (P_ n) (input_current_ (S_ n)) /\
  poisson_dev_ (V_ n) = (resolution_ms * rate_ (S_ n) * dmilli)%D.

End Invariants.

Section Frames.
Import rbf_poisson_generator.
Context {D : Type} {random : RandomDev D}.

(** Two states of a Gaussian node that differ in the random source only. *)
Definition same_device (n n' : rbf_poisson_generator) : Prop :=
  P_ n' = P_ n /\ V_ n' = V_ n /\ S_ n' = S_ n /\ B_ n' = B_ n /\
  targets n' = targets n.

(** Two states of a Gaussian node that differ in the random source and the
    ring buffer only. *)
Definition same_settings (n n' : rbf_poisson_generator) : Prop :=
  P_ n' = P_ n /\ V_ n' = V_ n /\ S_ n' = S_ n /\ targets n' = targets n.

End Frames.

(** ** Inputs for the examples *)

Module Examples.

(** *** In binary64 *)

(** A step of 0.1 ms (the double nearest to it). *)
Definition resolution : float := 0x1.999999999999ap-4%float.

(** Linear parameters whose saturation intervals overlap:
    [min_current = 1 > max_current = 0]. *)
Definition overlapping : cd_poisson_generator.Parameters_ (D := float) :=
  {| cd_poisson_generator.min_rate_ := 1%float;
     cd_poisson_generator.max_rate_ := 10%float;
     cd_poisson_generator.min_current_ := 1%float;
     cd_poisson_generator.max_current_ := 0%float |}.

(** A linear node with the given parameters, last input current, ring
    buffer and deviates to come; the state's rate is the default one. *)
Definition node (p : cd_poisson_generator.Parameters_ (D := float))
    (input : float) (b : RingBuffer float) (r : list Z)
  : cd_poisson_generator.cd_poisson_generator
      (D := float) (random := scripted float) :=
  {| cd_poisson_generator.P_ := p;
     cd_poisson_generator.V_ := {| cd_poisson_generator.poisson_dev_ := 0%float |};
     cd_poisson_generator.S_ :=
       {| cd_poisson_generator.rate_ := 5%float;
          cd_poisson_generator.input_current_ := input |};
     cd_poisson_generator.B_ :=
       {| cd_poisson_generator.currents_ := b;
          cd_poisson_generator.step_ := resolution |};
     cd_poisson_generator.rng := r |}.

(** A ring buffer that holds [v] at step 0 and nothing elsewhere. *)
Definition pulse (v : float) : RingBuffer float :=
  fun k => if k =? 0 then v else 0%float.

(** A ring buffer that holds 0, 0, 2, 2 at the steps 0, 1, 2, 3. *)
Definition ramp64 : RingBuffer float :=
  fun k => if (k =? 2) || (k =? 3) then 2%float else 0%float.

(** A dictionary that asks for [min_rate = -1]. *)
Definition negative_min_rate : Dictionary float :=
  {[ "min_rate" := (-1)%float ]}.

(** A dictionary that asks for [min_rate = 10] and [max_rate = 1]. *)
Definition swapped_rates : Dictionary float :=
  {[ "min_rate" := 10%float; "max_rate" := 1%float ]}.

(** A dictionary that asks for [min_rate = 2] and [max_rate = 20]. *)
Definition doubled_rates : Dictionary float :=
  {[ "min_rate" := 2%float; "max_rate" := 20%float ]}.

(** A dictionary that asks for [min_current = 1] and [max_current = 1]. *)
Definition equal_currents : Dictionary float :=
  {[ "min_current" := 1%float; "max_current" := 1%float ]}.


(** A Gaussian node with the given parameters, rate, Poisson mean and ring
    buffer, one target (node 7) and the deviate 0 to come. *)
Definition rbf_node (p : rbf_poisson_generator.Parameters_ (D := float))
    (rate lam : float) (b : RingBuffer float)
  : rbf_poisson_generator.rbf_poisson_generator
      (D := float) (random := scripted float) :=
  {| rbf_poisson_generator.P_ := p;
     rbf_poisson_generator.V_ := {| rbf_poisson_generator.poisson_dev_ := lam |};
     rbf_poisson_generator.S_ := {| rbf_poisson_generator.rate_ := rate |};
     rbf_poisson_generator.B_ :=
       {| rbf_poisson_generator.currents_ := b;
          rbf_poisson_generator.step_ := resolution |};
     rbf_poisson_generator.rng := [0];
     rbf_poisson_generator.targets := [7] |}.

(** A Gaussian node whose rate is zero: [min_rate = max_rate = 0], and the
    Poisson mean is 0. *)
Definition rbf_silent
  : rbf_poisson_generator.rbf_poisson_generator
      (D := float) (random := scripted float) :=
  rbf_node {| rbf_poisson_generator.min_rate_rbf_ := 0%float;
              rbf_poisson_generator.max_rate_rbf_ := 0%float;
              rbf_poisson_generator.mean_current_rbf_ := 0%float;
              rbf_poisson_generator.sigma_current_rbf_ := 1%float |}
    0%float 0%float clear.

(** *** In exact arithmetic *)


(** A Gaussian node with the given parameters and ring buffer, at rest:
    default state, one target (node 7), the deviate 1 to come. *)
Definition rbf_exact (p : rbf_poisson_generator.Parameters_ (D := R))
    (b : RingBuffer R)
  : rbf_poisson_generator.rbf_poisson_generator (D := R) (random := scripted R) :=
  {| rbf_poisson_generator.P_ := p;
     rbf_poisson_generator.V_ := {| rbf_poisson_generator.poisson_dev_ := 0%R |};
     rbf_poisson_generator.S_ := rbf_poisson_generator.State_default p;
     rbf_poisson_generator.B_ :=
       {| rbf_poisson_generator.currents_ := b;
          rbf_poisson_generator.step_ := 1%R |};
     rbf_poisson_generator.rng := [1];
     rbf_poisson_generator.targets := [7] |}.

(** The Gaussian node with default parameters and an empty ring buffer. *)
Definition rbf_rest
  : rbf_poisson_generator.rbf_poisson_generator (D := R) (random := scripted R) :=
  rbf_exact rbf_poisson_generator.Parameters_default clear.

(** A ring buffer that holds 0, 0, 2, 2 at the steps 0, 1, 2, 3. *)
Definition ramp : RingBuffer R :=
  fun k => if (k =? 2) || (k =? 3) then 2%R else 0%R.


(** *** Further inputs in binary64 *)

(** A linear node at rest under [min_rate = 0]: the rate is 0, the current
    -1 waits at step 0, and the deviates 3 and 1 are to come. *)
Definition quiet_node
  : cd_poisson_generator.cd_poisson_generator
      (D := float) (random := scripted float) :=
  {| cd_poisson_generator.P_ :=
       {| cd_poisson_generator.min_rate_ := 0%float;
          cd_poisson_generator.max_rate_ := 10%float;
          cd_poisson_generator.min_current_ := 0%float;
          cd_poisson_generator.max_current_ := 1%float |};
     cd_poisson_generator.V_ := {| cd_poisson_generator.poisson_dev_ := 0%float |};
     cd_poisson_generator.S_ :=
       {| cd_poisson_generator.rate_ := 0%float;
          cd_poisson_generator.input_current_ := 0%float |};
     cd_poisson_generator.B_ :=
       {| cd_poisson_generator.currents_ := pulse (-1)%float;
          cd_poisson_generator.step_ := resolution |};
     cd_poisson_generator.rng := [3; 1] |}.

(** A dictionary that asks for [rate = 7]. *)
Definition forced_rate : Dictionary float :=
  {[ "rate" := 7%float ]}.


(** Gaussian parameters with the rates 0.3 and 0.9 (the doubles nearest to
    them), [mean_current = 0] and [sigma_current = 1]. *)
Definition uneven_rates : rbf_poisson_generator.Parameters_ (D := float) :=
  {| rbf_poisson_generator.min_rate_rbf_ := 0x1.3333333333333p-2%float;
     rbf_poisson_generator.max_rate_rbf_ := 0x1.ccccccccccccdp-1%float;
     rbf_poisson_generator.mean_current_rbf_ := 0%float;
     rbf_poisson_generator.sigma_current_rbf_ := 1%float |}.

(** The dictionary [equal_currents], for a traced run. *)
Definition equal_currents_traced : Dictionary (Traced.T float) :=
  {[ "min_current" := Traced.pure 1%float; "max_current" := Traced.pure 1%float ]}.

(** An [exp] of which the values at the zeros alone are known: 1 there, as
    Annex F of the C standard fixes [exp(+-0)]; elsewhere it answers NaN, and
    the runs below do not look there. *)
Definition exp_at_zeros : StdExp float :=
  {| dexp := fun x => if PrimFloat.eqb x 0 then 1%float else nan |}.

End Examples.

(** * Properties *)

(** ** The monad and the logs *)

Section SimFacts.
Context {St D : Type}.

Lemma log_bind {A B} (m : Sim (St := St) (D := D) A) (k : A -> Sim B) (s : St) :
  log_of (bind m k s) = log_of (m s) ++ log_of (k (fst (fst (m s))) (state_of (m s))).
Proof.
  unfold bind, log_of, state_of.
  destruct (m s) as [[a s1] l1]; simpl.
  destruct (k a s1) as [[b s2] l2]; reflexivity.
Qed.

Lemma state_bind {A B} (m : Sim (St := St) (D := D) A) (k : A -> Sim B) (s : St) :
  state_of (bind m k s) = state_of (k (fst (fst (m s))) (state_of (m s))).
Proof.
  unfold bind, log_of, state_of.
  destruct (m s) as [[a s1] l1]; simpl.
  destruct (k a s1) as [[b s2] l2]; reflexivity.
Qed.

Lemma value_bind {A B} (m : Sim (St := St) (D := D) A) (k : A -> Sim B) (s : St) :
  fst (fst (bind m k s)) = fst (fst (k (fst (fst (m s))) (state_of (m s)))).
Proof.
  unfold bind, log_of, state_of.
  destruct (m s) as [[a s1] l1]; simpl.
  destruct (k a s1) as [[b s2] l2]; reflexivity.
Qed.

End SimFacts.

Section LogFacts.
Context {D : Type}.

Lemma draws_app (l1 l2 : list (action D)) : draws (l1 ++ l2) = draws l1 ++ draws l2.
Proof. apply flat_map_app. Qed.

Lemma spikes_app (l1 l2 : list (action D)) : spikes (l1 ++ l2) = spikes l1 ++ spikes l2.
Proof. apply flat_map_app. Qed.

Lemma lambdas_app (l1 l2 : list (action D)) :
  lambdas (l1 ++ l2) = lambdas l1 ++ lambdas l2.
Proof. apply flat_map_app. Qed.

Lemma drained_app (l1 l2 : list (action D)) :
  drained (l1 ++ l2) = drained l1 ++ drained l2.
Proof. apply flat_map_app. Qed.

Lemma deviates_app (l1 l2 : list (action D)) :
  deviates (l1 ++ l2) = deviates l1 ++ deviates l2.
Proof. unfold deviates. rewrite draws_app. apply map_app. Qed.

Lemma multiplicities_app (l1 l2 : list (action D)) :
  multiplicities (l1 ++ l2) = multiplicities l1 ++ multiplicities l2.
Proof. apply flat_map_app. Qed.

Lemma coalesced_nil : coalesced (D := D) [].
Proof. reflexivity. Qed.

Lemma coalesced_app (l1 l2 : list (action D)) :
  coalesced l1 -> coalesced l2 -> coalesced (l1 ++ l2).
Proof.
  unfold coalesced. intros H1 H2.
  rewrite multiplicities_app, deviates_app, List.filter_app. congruence.
Qed.

Lemma loop_log_nil (lam : D) : loop_log lam [].
Proof. repeat split. constructor. Qed.

Lemma loop_log_app (lam : D) (l1 l2 : list (action D)) :
  loop_log lam l1 -> loop_log lam l2 -> loop_log lam (l1 ++ l2).
Proof.
  intros (L1 & F1 & C1) (L2 & F2 & C2). repeat split.
  - rewrite lambdas_app, L1, L2. reflexivity.
  - rewrite draws_app. apply Forall_app. split; assumption.
  - apply coalesced_app; assumption.
Qed.

(** A property of logs that holds of the empty log and of concatenations
    holds of a loop when it holds of every iteration. *)
Lemma for_each_lag_log {St A} (P : list (action D) -> Prop)
    (body : Z -> A -> Sim (St := St) (D := D) A) :
  P [] -> (forall l1 l2, P l1 -> P l2 -> P (l1 ++ l2)) ->
  (forall lag a s, P (log_of (body lag a s))) ->
  forall n lag a s, P (log_of (for_each_lag n lag body a s)).
Proof.
  intros Hnil Happ Hbody. induction n as [|n IH]; intros lag a s; simpl.
  - exact Hnil.
  - rewrite log_bind. apply Happ; [apply Hbody | apply IH].
Qed.

Lemma length_entries (b : RingBuffer D) (n : nat) (lag : Z) :
  length (entries b lag n) = n.
Proof.
  revert lag. induction n as [|n IH]; intros lag; simpl;
    [reflexivity | rewrite IH; reflexivity].
Qed.

Lemma entries_ext (b b' : RingBuffer D) (n : nat) (lag : Z) :
  (forall k, lag <= k -> b' k = b k) -> entries b' lag n = entries b lag n.
Proof.
  revert lag. induction n as [|n IH]; intros lag E; simpl; [reflexivity|].
  rewrite (E lag) by lia. f_equal. apply IH. intros k Hk. apply E. lia.
Qed.

End LogFacts.

(** ** The linear variant *)

Section Linear.
Import cd_poisson_generator.
Context {D : Type} {arith : Double D} {random : RandomDev D}.
Variable resolution_ms : D.

Lemma rate_of_current_law (p : Parameters_) (I : D) :
  linear_law p I (rate_of_current p I).
Proof.
  unfold linear_law, rate_of_current.
  destruct (I <=? min_current_ p)%D; destruct (I >=? max_current_ p)%D;
    repeat split; intros; congruence.
Qed.

(** What [calibrate] leaves in the state and in the log. *)
Lemma calibrate_state (n : cd_poisson_generator) :
  state_of (calibrate resolution_ms n) =
  let rate := rate_of_current (P_ n) (input_current_ (S_ n)) in
  with_V {| poisson_dev_ := (resolution_ms * rate * dmilli)%D |}
    (with_S {| rate_ := rate; input_current_ := input_current_ (S_ n) |} n).
Proof. reflexivity. Qed.

Lemma calibrate_log (n : cd_poisson_generator) :
  log_of (calibrate resolution_ms n) =
  [SetLambda (resolution_ms * rate_of_current (P_ n) (input_current_ (S_ n))
              * dmilli)%D].
Proof. reflexivity. Qed.

(** One iteration of the loop of [update], spelled out. *)
Lemma update_step_eq (T lag : Z) (n : cd_poisson_generator) :
  let v := currents_ (B_ n) lag in
  let m := after_rate resolution_ms lag n in
  let lam := poisson_dev_ (V_ m) in
  let k := fst (ldev lam (rng m)) in
  update_step resolution_ms T lag n =
  (tt,
   if (rate_ (S_ m) >? dlit 0)%D then with_rng (snd (ldev lam (rng m))) m else m,
   GetValue lag v
   :: (if (input_current_ (S_ n) !=? v)%D then [SetLambda lam] else [])
   ++ (if (rate_ (S_ m) >? dlit 0)%D
       then Ldev lam k :: (if k >? 0 then [SendSpike lag k] else [])
       else [])
   ++ [RecordData (T + lag)]).
Proof.
  unfold update_step, after_rate, currents_get_value, poisson_ldev, set_lambda,
    bind, get, modify, emit, ret, get_value; simpl.
  destruct (input_current_ (S_ n) ==? currents_ (B_ n) lag)%D; simpl.
  - destruct (dlit 0 <? rate_ (S_ n))%D; simpl; [|reflexivity].
    destruct (ldev (poisson_dev_ (V_ n)) (rng n)) as [k r]; simpl.
    destruct (k >? 0); reflexivity.
  - destruct (dlit 0 <? rate_of_current (P_ n) (currents_ (B_ n) lag))%D; simpl;
      [|reflexivity].
    destruct (ldev _ (rng n)) as [k r]; simpl.
    destruct (k >? 0); reflexivity.
Qed.

(** The rate and the mean that one iteration works with. *)
Lemma after_rate_spec (lag : Z) (n : cd_poisson_generator) :
  let v := currents_ (B_ n) lag in
  let m := after_rate resolution_ms lag n in
  if (input_current_ (S_ n) !=? v)%D
  then rate_ (S_ m) = rate_of_current (P_ n) v /\
       poisson_dev_ (V_ m) = (resolution_ms * rate_ (S_ m) * dmilli)%D
  else rate_ (S_ m) = rate_ (S_ n) /\ poisson_dev_ (V_ m) = poisson_dev_ (V_ n).
Proof.
  unfold after_rate. cbv zeta.
  destruct (input_current_ (S_ n) ==? currents_ (B_ n) lag)%D; split; reflexivity.
Qed.

(** The rate that one iteration leaves in the state. *)
Lemma update_step_rate (T lag : Z) (n : cd_poisson_generator) :
  rate_ (S_ (state_of (update_step resolution_ms T lag n))) =
  if (input_current_ (S_ n) !=? currents_ (B_ n) lag)%D
  then rate_of_current (P_ n) (currents_ (B_ n) lag)
  else rate_ (S_ n).
Proof.
  pose proof (update_step_eq T lag n) as E. cbv zeta in E. rewrite E. clear E.
  unfold state_of, after_rate. simpl.
  destruct (input_current_ (S_ n) ==? currents_ (B_ n) lag)%D; simpl;
    match goal with |- context [if ?c then _ else _] => destruct c end;
    reflexivity.
Qed.

(** The deviates and the spike events of one iteration. *)
Lemma update_step_draws (T lag : Z) (n : cd_poisson_generator) :
  let m := after_rate resolution_ms lag n in
  let lam := poisson_dev_ (V_ m) in
  draws (log_of (update_step resolution_ms T lag n)) =
  if (rate_ (S_ m) >? dlit 0)%D then [(lam, fst (ldev lam (rng m)))] else [].
Proof.
  pose proof (update_step_eq T lag n) as E. cbv zeta in E. cbv zeta. rewrite E.
  unfold log_of; simpl. rewrite !draws_app.
  destruct (input_current_ (S_ n) ==? currents_ (B_ n) lag)%D;
    destruct (dlit 0 <? rate_ (S_ (after_rate resolution_ms lag n)))%D; simpl;
    try reflexivity;
    destruct (fst (ldev _ _) >? 0); reflexivity.
Qed.

Lemma update_step_spikes (T lag : Z) (n : cd_poisson_generator) :
  let m := after_rate resolution_ms lag n in
  let lam := poisson_dev_ (V_ m) in
  spikes (log_of (update_step resolution_ms T lag n)) =
  if (rate_ (S_ m) >? dlit 0)%D then coalesce lag (fst (ldev lam (rng m))) else [].
Proof.
  pose proof (update_step_eq T lag n) as E. cbv zeta in E. cbv zeta. rewrite E.
  unfold log_of, coalesce; simpl. rewrite !spikes_app.
  destruct (input_current_ (S_ n) ==? currents_ (B_ n) lag)%D;
    destruct (dlit 0 <? rate_ (S_ (after_rate resolution_ms lag n)))%D; simpl;
    try reflexivity;
    destruct (fst (ldev _ _) >? 0); reflexivity.
Qed.

Lemma update_step_coalesced (T lag : Z) (n : cd_poisson_generator) :
  coalesced (log_of (update_step resolution_ms T lag n)).
Proof.
  pose proof (update_step_eq T lag n) as E. cbv zeta in E. rewrite E.
  unfold log_of, coalesced, deviates; simpl.
  rewrite !multiplicities_app, !draws_app.
  destruct (input_current_ (S_ n) ==? currents_ (B_ n) lag)%D;
    destruct (dlit 0 <? rate_ (S_ (after_rate resolution_ms lag n)))%D; simpl;
    try reflexivity;
    destruct (fst (ldev _ _) >? 0) eqn:K; simpl; rewrite ?K; reflexivity.
Qed.

Lemma update_coalesced (T from to : Z) (n : cd_poisson_generator) :
  coalesced (log_of (update resolution_ms T from to n)).
Proof.
  unfold update, for_lags.
  apply (for_each_lag_log coalesced); intros.
  - apply coalesced_nil.
  - apply coalesced_app; assumption.
  - apply update_step_coalesced.
Qed.

(** C1, as amended.  The rate that the linear variant computes, in
    [calibrate] from the stored input current and in a step of [update] from
    a newly drained current, is [min_rate] when the current is at most
    [min_current]; [max_rate] when the current is above [min_current] and at
    least [max_current]; and the linear interpolation otherwise.  A step of
    [update] whose drained current equals the stored one computes no rate. *)
Theorem C1_linear_rate_contract (T lag : Z) (n : cd_poisson_generator) :
  linear_law (P_ n) (input_current_ (S_ n))
    (rate_ (S_ (state_of (calibrate resolution_ms n)))) /\
  (if (input_current_ (S_ n) !=? currents_ (B_ n) lag)%D
   then linear_law (P_ n) (currents_ (B_ n) lag)
          (rate_ (S_ (state_of (update_step resolution_ms T lag n))))
   else rate_ (S_ (state_of (update_step resolution_ms T lag n))) = rate_ (S_ n)).
Proof.
  split.
  - rewrite calibrate_state. apply rate_of_current_law.
  - rewrite update_step_rate.
    destruct (input_current_ (S_ n) ==? currents_ (B_ n) lag)%D; simpl;
      [reflexivity | apply rate_of_current_law].
Qed.

End Linear.

(** ** The Gaussian variant *)

Section Rbf.
Import rbf_poisson_generator.
Context {D : Type} {arith : Double D} {libm : StdExp D} {random : RandomDev D}.
Variable resolution_ms : D.

(** [event_hook], spelled out: one deviate, and one event if it is positive. *)
Lemma event_hook_eq (e : DSSpikeEvent) (n : rbf_poisson_generator) :
  let lam := poisson_dev_ (V_ n) in
  let k := fst (ldev lam (rng n)) in
  event_hook e n =
  (tt, with_rng (snd (ldev lam (rng n))) n,
   Ldev lam k :: (if k >? 0 then [Handle (receiver e) (stamp_lag e) k] else [])).
Proof.
  unfold event_hook, poisson_ldev, bind, get, modify, emit, ret; simpl.
  destruct (ldev (poisson_dev_ (V_ n)) (rng n)) as [k r]; simpl.
  destruct (k >? 0); reflexivity.
Qed.

Lemma event_hook_frame (e : DSSpikeEvent) (n : rbf_poisson_generator) :
  same_device n (state_of (event_hook e n)).
Proof.
  pose proof (event_hook_eq e n) as E. cbv zeta in E. rewrite E.
  repeat split.
Qed.

Lemma event_hook_log (e : DSSpikeEvent) (n : rbf_poisson_generator) :
  loop_log (poisson_dev_ (V_ n)) (log_of (event_hook e n)).
Proof.
  pose proof (event_hook_eq e n) as E. cbv zeta in E. rewrite E.
  unfold loop_log, coalesced, log_of, deviates; simpl.
  destruct (fst (ldev (poisson_dev_ (V_ n)) (rng n)) >? 0) eqn:K; simpl;
    rewrite ?K; repeat split; repeat constructor.
Qed.

Lemma event_hook_drained (e : DSSpikeEvent) (n : rbf_poisson_generator) :
  drained (log_of (event_hook e n)) = [].
Proof.
  pose proof (event_hook_eq e n) as E. cbv zeta in E. rewrite E.
  unfold log_of; simpl. destruct (_ >? 0); reflexivity.
Qed.

(** The events of one step reach every target through [event_hook]; the
    device itself is left as it was. *)
Lemma hooks_frame (lag : Z) (ts : list Z) (n : rbf_poisson_generator) :
  let r := for_each ts
             (fun t => event_hook {| receiver := t; stamp_lag := lag;
                                     multiplicity := 1 |}) n in
  same_device n (state_of r) /\
  loop_log (poisson_dev_ (V_ n)) (log_of r) /\
  drained (log_of r) = [].
Proof.
  revert n. induction ts as [|t ts IH]; intros n; simpl.
  - split; [repeat split|]. split; [apply loop_log_nil | reflexivity].
  - rewrite state_bind, log_bind.
    set (e := {| receiver := t; stamp_lag := lag; multiplicity := 1 |}).
    destruct (event_hook_frame e n) as (HP & HV & HS & HB & HT).
    destruct (IH (state_of (event_hook e n)))
      as ((HP' & HV' & HS' & HB' & HT') & HL & HD).
    split; [|split].
    + unfold same_device. repeat split; congruence.
    + apply loop_log_app; [apply event_hook_log|].
      rewrite <- HV. exact HL.
    + rewrite drained_app, HD, event_hook_drained. reflexivity.
Qed.

(** One iteration of the loop of [update], spelled out. *)
Lemma rbf_update_step_eq (T lag : Z) (current_sum : D) (n : rbf_poisson_generator) :
  let v := currents_ (B_ n) lag in
  let n1 := with_B {| currents_ := snd (get_value lag (currents_ (B_ n)));
                      step_ := step_ (B_ n) |} n in
  let r := for_each (targets n)
             (fun t => event_hook {| receiver := t; stamp_lag := lag;
                                     multiplicity := 1 |}) n1 in
  update_step T lag current_sum n =
  ((current_sum + v)%D, state_of r,
   GetValue lag v :: SendDSSpike lag :: log_of r ++ [RecordData (T + lag)]).
Proof.
  unfold update_step, network_send, currents_get_value, bind, get, modify, emit,
    ret, get_value, state_of, log_of; simpl.
  destruct (for_each _ _ _) as [[[] s1] l1]; reflexivity.
Qed.

(** What one iteration does: it adds the slot to the sum, clears the slot,
    and leaves parameters, state and Poisson mean alone. *)
Lemma rbf_update_step_spec (T lag : Z) (current_sum : D) (n : rbf_poisson_generator) :
  let r := update_step T lag current_sum n in
  fst (fst r) = (current_sum + currents_ (B_ n) lag)%D /\
  same_settings n (state_of r) /\
  (forall k, currents_ (B_ (state_of r)) k =
             if k =? lag then dlit 0 else currents_ (B_ n) k) /\
  loop_log (poisson_dev_ (V_ n)) (log_of r) /\
  drained (log_of r) = [(lag, currents_ (B_ n) lag)].
Proof.
  pose proof (rbf_update_step_eq T lag current_sum n) as E. cbv zeta in E.
  cbv zeta. rewrite E. clear E.
  set (n1 := with_B _ n).
  destruct (hooks_frame lag (targets n) n1)
    as ((HP & HV & HS & HB & HT) & HL & HD).
  change (targets n1) with (targets n) in *.
  remember (for_each (targets n)
              (fun t => event_hook {| receiver := t; stamp_lag := lag;
                                      multiplicity := 1 |}) n1) as r eqn:Hr.
  clear Hr. destruct r as [[u s1] l1].
  unfold state_of, log_of in *. simpl in *.
  split; [reflexivity|]. split; [|split; [|split]].
  - unfold same_settings. rewrite HP, HV, HS, HT. repeat split.
  - intros k. rewrite HB. reflexivity.
  - apply (loop_log_app _ [GetValue lag (currents_ (B_ n) lag); SendDSSpike lag]);
      [repeat split; constructor|].
    apply loop_log_app; [exact HL | repeat split; constructor].
  - rewrite drained_app, HD. reflexivity.
Qed.

(** The loop of [update]: the slots are summed in order and cleared, every
    deviate is drawn for the mean the Poisson device had on entry, and
    parameters, state and mean are those on entry. *)
Lemma rbf_loop_spec (T : Z) (cnt : nat) (lag : Z) (current_sum : D)
    (n : rbf_poisson_generator) :
  let r := for_each_lag cnt lag (update_step T) current_sum n in
  fst (fst r) = fold_left dadd (map snd (entries (currents_ (B_ n)) lag cnt))
                  current_sum /\
  same_settings n (state_of r) /\
  loop_log (poisson_dev_ (V_ n)) (log_of r) /\
  drained (log_of r) = entries (currents_ (B_ n)) lag cnt.
Proof.
  revert lag current_sum n.
  induction cnt as [|cnt IH]; intros lag current_sum n; simpl.
  - split; [reflexivity|]. split; [repeat split|].
    split; [apply loop_log_nil | reflexivity].
  - rewrite value_bind, state_bind, log_bind.
    destruct (rbf_update_step_spec T lag current_sum n)
      as (Hv & (HP & HV & HS & HT) & HB & HL & HD).
    cbv zeta in IH.
    destruct (IH (lag + 1) (fst (fst (update_step T lag current_sum n)))
                (state_of (update_step T lag current_sum n)))
      as (Hv' & (HP' & HV' & HS' & HT') & HL' & HD').
    assert (HE : entries (currents_ (B_ (state_of (update_step T lag current_sum n))))
                   (lag + 1) cnt
                 = entries (currents_ (B_ n)) (lag + 1) cnt).
    { apply entries_ext. intros k Hk. rewrite HB.
      destruct (k =? lag) eqn:K; [apply Z.eqb_eq in K; lia | reflexivity]. }
    split; [|split; [|split]].
    + rewrite Hv', HE, Hv. reflexivity.
    + unfold same_settings. repeat split; congruence.
    + apply loop_log_app; [exact HL|]. rewrite <- HV. exact HL'.
    + rewrite drained_app, HD, HD', HE. reflexivity.
Qed.

(** [update], spelled out: the loop, then one rate and one mean. *)
Lemma rbf_update_eq (T from to : Z) (n : rbf_poisson_generator) :
  let r := for_lags from to (update_step T) (dlit 0) n in
  let rate := rate_of_average (P_ (state_of r))
                (fst (fst r) / dfloat (to - from))%D in
  update resolution_ms T from to n =
  (tt,
   with_V {| poisson_dev_ := (resolution_ms * rate * dmilli)%D |}
     (with_S {| rate_ := rate |} (state_of r)),
   log_of r ++ [SetLambda (resolution_ms * rate * dmilli)%D]).
Proof.
  unfold update, set_lambda, bind, get, modify, emit, ret, state_of, log_of.
  destruct (for_lags from to (update_step T) (dlit 0) n) as [[a s1] l1].
  reflexivity.
Qed.

(** The rate that [update] stores is the Gaussian of the average of the
    slice: the sum of its slots over [(float)(to - from)]. *)
Lemma rbf_update_rate (T from to : Z) (n : rbf_poisson_generator) :
  rate_ (S_ (state_of (update resolution_ms T from to n))) =
  rate_of_average (P_ n)
    (slice_sum (currents_ (B_ n)) from to / dfloat (to - from))%D.
Proof.
  pose proof (rbf_update_eq T from to n) as E. cbv zeta in E. rewrite E. clear E.
  destruct (rbf_loop_spec T (Z.to_nat (to - from)) from (dlit 0) n)
    as (Hv & (HP & _) & _).
  unfold for_lags. unfold state_of at 1. simpl.
  rewrite Hv, HP. reflexivity.
Qed.

(** The log of [update]: the log of the loop, then the one new mean. *)
Lemma rbf_update_log (T from to : Z) (n : rbf_poisson_generator) :
  exists l,
    log_of (update resolution_ms T from to n) =
    l ++ [SetLambda (resolution_ms
                     * rate_ (S_ (state_of (update resolution_ms T from to n)))
                     * dmilli)%D] /\
    loop_log (poisson_dev_ (V_ n)) l /\
    drained l = slice (currents_ (B_ n)) from to.
Proof.
  pose proof (rbf_update_eq T from to n) as E. cbv zeta in E. rewrite E. clear E.
  destruct (rbf_loop_spec T (Z.to_nat (to - from)) from (dlit 0) n)
    as (_ & _ & HL & HD).
  exists (log_of (for_lags from to (update_step T) (dlit 0) n)).
  split; [reflexivity|]. split; [exact HL | exact HD].
Qed.

End Rbf.

(** ** Steps and slices of both variants *)

Section Behaviour.
Context {D : Type} {arith : Double D} {libm : StdExp D} {random : RandomDev D}.
Variable resolution_ms : D.

(** C3.  A step of the linear variant draws at most one deviate; it sends no
    spike event when it draws none or draws one that is not positive, and
    exactly one, with the deviate [k > 0] as its multiplicity, otherwise.
    [event_hook] of the Gaussian variant draws one deviate [k] and hands its
    event, with multiplicity [k], to the receiver when [k > 0] and not at all
    otherwise.  Over a whole slice of either variant the multiplicities of
    the events sent are the positive deviates, in the order drawn. *)
Theorem C3_event_coalescing (T lag from to : Z)
    (n : cd_poisson_generator.cd_poisson_generator)
    (e : rbf_poisson_generator.DSSpikeEvent)
    (g : rbf_poisson_generator.rbf_poisson_generator) :
  (let l := log_of (cd_poisson_generator.update_step resolution_ms T lag n) in
   (draws l = [] /\ spikes l = []) \/
   (exists lam k, draws l = [(lam, k)] /\ spikes l = coalesce lag k)) /\
  (let l := log_of (rbf_poisson_generator.event_hook e g) in
   exists lam k,
     draws l = [(lam, k)] /\
     handled l = coalesce (rbf_poisson_generator.receiver e,
                           rbf_poisson_generator.stamp_lag e) k) /\
  coalesced (log_of (cd_poisson_generator.update resolution_ms T from to n)) /\
  coalesced (log_of (rbf_poisson_generator.update resolution_ms T from to g)).
Proof.
  split; [|split; [|split]].
  - cbv zeta. rewrite update_step_draws, update_step_spikes.
    destruct (_ >? dlit 0)%D.
    + right. eexists _, _. split; reflexivity.
    + left. split; reflexivity.
  - cbv zeta. pose proof (event_hook_eq e g) as E. cbv zeta in E. rewrite E.
    exists (rbf_poisson_generator.poisson_dev_ (rbf_poisson_generator.V_ g)).
    exists (fst (ldev (rbf_poisson_generator.poisson_dev_ (rbf_poisson_generator.V_ g))
                   (rbf_poisson_generator.rng g))).
    unfold log_of, coalesce; simpl.
    destruct (_ >? 0); split; reflexivity.
  - apply update_coalesced.
  - destruct (rbf_update_log resolution_ms T from to g) as (l & -> & (_ & _ & HC) & _).
    apply coalesced_app; [exact HC | reflexivity].
Qed.

(** C5, as amended.  A step of the linear variant takes the value out of the
    ring buffer, then, if the value is new, computes the rate and gives the
    Poisson device its mean [resolution * rate * 1e-3], then, if the rate is
    positive, draws a deviate for the device's mean and sends the spike
    event, and then records.  A slice of the Gaussian variant first runs all
    its steps, in which every deviate is drawn for the mean the device had on
    entry, and only then gives the device the mean of the slice's rate: that
    mean serves the next slice. *)
Theorem C5_slice_order (T lag from to : Z)
    (n : cd_poisson_generator.cd_poisson_generator)
    (g : rbf_poisson_generator.rbf_poisson_generator) :
  (let v := cd_poisson_generator.currents_ (cd_poisson_generator.B_ n) lag in
   let changed := (cd_poisson_generator.input_current_ (cd_poisson_generator.S_ n)
                   !=? v)%D in
   let m := after_rate resolution_ms lag n in
   let rate := cd_poisson_generator.rate_ (cd_poisson_generator.S_ m) in
   let lam := cd_poisson_generator.poisson_dev_ (cd_poisson_generator.V_ m) in
   let k := fst (ldev lam (cd_poisson_generator.rng m)) in
   log_of (cd_poisson_generator.update_step resolution_ms T lag n) =
   [GetValue lag v]
   ++ (if changed then [SetLambda (resolution_ms * rate * dmilli)%D] else [])
   ++ (if (rate >? dlit 0)%D
       then Ldev lam k :: (if k >? 0 then [SendSpike lag k] else [])
       else [])
   ++ [RecordData (T + lag)] /\
   (if changed
    then rate = cd_poisson_generator.rate_of_current (cd_poisson_generator.P_ n) v /\
         lam = (resolution_ms * rate * dmilli)%D
    else rate = cd_poisson_generator.rate_ (cd_poisson_generator.S_ n) /\
         lam = cd_poisson_generator.poisson_dev_ (cd_poisson_generator.V_ n))) /\
  (exists l,
     log_of (rbf_poisson_generator.update resolution_ms T from to g) =
     l ++ [SetLambda
             (resolution_ms
              * rbf_poisson_generator.rate_
                  (rbf_poisson_generator.S_
                     (state_of (rbf_poisson_generator.update resolution_ms T from to g)))
              * dmilli)%D] /\
     lambdas l = [] /\
     Forall (fun d => fst d = rbf_poisson_generator.poisson_dev_
                                (rbf_poisson_generator.V_ g)) (draws l) /\
     drained l = slice (rbf_poisson_generator.currents_ (rbf_poisson_generator.B_ g))
                   from to).
Proof.
  split.
  - cbv zeta. pose proof (update_step_eq resolution_ms T lag n) as E.
    cbv zeta in E. rewrite E. clear E.
    split; [|apply after_rate_spec].
    unfold log_of, after_rate; simpl.
    destruct (_ ==? _)%D; reflexivity.
  - destruct (rbf_update_log resolution_ms T from to g) as (l & E & (HL & HF & _) & HD).
    exists l. repeat split; assumption.
Qed.

(** C6, as amended.  A step of the linear variant draws one deviate, for the
    mean the Poisson device has then, when the rate is positive; when it is
    not, it draws nothing, leaves the random source as it was and sends no
    event.  [event_hook] of the Gaussian variant draws one deviate for the
    device's mean whatever the rate. *)
Theorem C6_zero_rate_skip (T lag : Z)
    (n : cd_poisson_generator.cd_poisson_generator)
    (e : rbf_poisson_generator.DSSpikeEvent)
    (g : rbf_poisson_generator.rbf_poisson_generator) :
  (let m := after_rate resolution_ms lag n in
   let r := cd_poisson_generator.update_step resolution_ms T lag n in
   let lam := cd_poisson_generator.poisson_dev_ (cd_poisson_generator.V_ m) in
   cd_poisson_generator.rate_ (cd_poisson_generator.S_ (state_of r)) =
   cd_poisson_generator.rate_ (cd_poisson_generator.S_ m) /\
   if (cd_poisson_generator.rate_ (cd_poisson_generator.S_ m) >? dlit 0)%D
   then draws (log_of r) = [(lam, fst (ldev lam (cd_poisson_generator.rng m)))] /\
        cd_poisson_generator.rng (state_of r) =
        snd (ldev lam (cd_poisson_generator.rng m))
   else draws (log_of r) = [] /\ spikes (log_of r) = [] /\
        cd_poisson_generator.rng (state_of r) = cd_poisson_generator.rng n) /\
  (let lam := rbf_poisson_generator.poisson_dev_ (rbf_poisson_generator.V_ g) in
   let r := rbf_poisson_generator.event_hook e g in
   draws (log_of r) = [(lam, fst (ldev lam (rbf_poisson_generator.rng g)))] /\
   rbf_poisson_generator.rng (state_of r) =
   snd (ldev lam (rbf_poisson_generator.rng g))).
Proof.
  split.
  - cbv zeta. rewrite update_step_draws, update_step_spikes.
    pose proof (update_step_eq resolution_ms T lag n) as E. cbv zeta in E.
    rewrite E. clear E. unfold state_of. simpl.
    destruct (dlit 0 <? _)%D eqn:R; simpl.
    + repeat split.
    + repeat split.
      unfold after_rate. destruct (_ ==? _)%D; reflexivity.
  - cbv zeta. pose proof (event_hook_eq e g) as E. cbv zeta in E. rewrite E.
    unfold log_of, state_of; simpl. destruct (_ >? 0); split; reflexivity.
Qed.

End Behaviour.

(** ** Configuration *)

Section Configuration.
Context {D : Type} {arith : Double D}.

Lemma updateValue_Some (d : Dictionary D) (name : string) (x v : D) :
  d !! name = Some v -> updateValue d name x = v.
Proof. unfold updateValue. intros ->. reflexivity. Qed.

(** The parameters that [Parameters_::set] leaves, thrown or not. *)
Lemma cd_Parameters_set_fields (d : Dictionary D)
    (p : cd_poisson_generator.Parameters_) :
  fst (cd_poisson_generator.Parameters_set d p) =
  {| cd_poisson_generator.min_rate_ :=
       updateValue d "min_rate" (cd_poisson_generator.min_rate_ p);
     cd_poisson_generator.max_rate_ :=
       updateValue d "max_rate" (cd_poisson_generator.max_rate_ p);
     cd_poisson_generator.min_current_ :=
       updateValue d "min_current" (cd_poisson_generator.min_current_ p);
     cd_poisson_generator.max_current_ :=
       updateValue d "max_current" (cd_poisson_generator.max_current_ p) |}.
Proof.
  unfold cd_poisson_generator.Parameters_set. cbv zeta.
  destruct (_ || _); reflexivity.
Qed.

Lemma rbf_Parameters_set_fields (d : Dictionary D)
    (p : rbf_poisson_generator.Parameters_) :
  fst (rbf_poisson_generator.Parameters_set d p) =
  {| rbf_poisson_generator.min_rate_rbf_ :=
       updateValue d "min_rate" (rbf_poisson_generator.min_rate_rbf_ p);
     rbf_poisson_generator.max_rate_rbf_ :=
       updateValue d "max_rate" (rbf_poisson_generator.max_rate_rbf_ p);
     rbf_poisson_generator.mean_current_rbf_ :=
       updateValue d "mean_current" (rbf_poisson_generator.mean_current_rbf_ p);
     rbf_poisson_generator.sigma_current_rbf_ :=
       updateValue d "sigma_current" (rbf_poisson_generator.sigma_current_rbf_ p) |}.
Proof.
  unfold rbf_poisson_generator.Parameters_set. cbv zeta.
  destruct (_ || _); reflexivity.
Qed.

(** What [Parameters_::set] of the linear variant checks. *)
Lemma cd_Parameters_set_outcome (d : Dictionary D)
    (p : cd_poisson_generator.Parameters_) :
  let p' := fst (cd_poisson_generator.Parameters_set d p) in
  snd (cd_poisson_generator.Parameters_set d p) =
  if (cd_poisson_generator.min_rate_ p' <? dlit 0)%D
     || (cd_poisson_generator.max_rate_ p' <? dlit 0)%D
  then Throws bad_rates else Returns tt.
Proof.
  cbv zeta. rewrite cd_Parameters_set_fields.
  unfold cd_poisson_generator.Parameters_set. cbv zeta.
  destruct (_ || _); reflexivity.
Qed.

(** What [Parameters_::set] of the Gaussian variant checks. *)
Lemma rbf_Parameters_set_outcome (d : Dictionary D)
    (p : rbf_poisson_generator.Parameters_) :
  let p' := fst (rbf_poisson_generator.Parameters_set d p) in
  snd (rbf_poisson_generator.Parameters_set d p) =
  if (rbf_poisson_generator.min_rate_rbf_ p' <? dlit 0)%D
     || (rbf_poisson_generator.max_rate_rbf_ p' <? dlit 0)%D
     || (rbf_poisson_generator.min_rate_rbf_ p'
         >? rbf_poisson_generator.max_rate_rbf_ p')%D
  then Throws bad_rates else Returns tt.
Proof.
  cbv zeta. rewrite rbf_Parameters_set_fields.
  unfold rbf_poisson_generator.Parameters_set. cbv zeta.
  destruct (_ || _); reflexivity.
Qed.

Context {random : RandomDev D}.

(** [set_status] when [Parameters_::set] throws: nothing is changed. *)
Lemma set_status_throws (d : Dictionary D)
    (n : cd_poisson_generator.cd_poisson_generator) (e : exception) :
  snd (cd_poisson_generator.Parameters_set d (cd_poisson_generator.P_ n)) = Throws e ->
  cd_poisson_generator.set_status d n = (n, Throws e).
Proof.
  unfold cd_poisson_generator.set_status.
  destruct (cd_poisson_generator.Parameters_set d _) as [p' [[]|e']]; simpl;
    intros E; [discriminate | congruence].
Qed.

(** [set_status] when [Parameters_::set] returns: parameters and state are
    replaced, the rest of the node is kept. *)
Lemma set_status_returns (d : Dictionary D)
    (n : cd_poisson_generator.cd_poisson_generator) :
  snd (cd_poisson_generator.Parameters_set d (cd_poisson_generator.P_ n)) = Returns tt ->
  let p' := fst (cd_poisson_generator.Parameters_set d (cd_poisson_generator.P_ n)) in
  cd_poisson_generator.set_status d n =
  ({| cd_poisson_generator.P_ := p';
      cd_poisson_generator.V_ := cd_poisson_generator.V_ n;
      cd_poisson_generator.S_ :=
        cd_poisson_generator.State_set d p' (cd_poisson_generator.S_ n);
      cd_poisson_generator.B_ := cd_poisson_generator.B_ n;
      cd_poisson_generator.rng := cd_poisson_generator.rng n |},
   Returns tt).
Proof.
  unfold cd_poisson_generator.set_status.
  destruct (cd_poisson_generator.Parameters_set d _) as [p' [[]|e']]; simpl;
    intros E; [reflexivity | discriminate].
Qed.

(** C8.  When [Parameters_::set] throws on the dictionary of a [set_status],
    as it does on one that asks for a negative [min_rate], the call throws
    the same exception and leaves the node, parameters and state included,
    as it was.  A later [set_status] whose dictionary passes the check
    returns, and every parameter the dictionary supplies has the supplied
    value; the others keep theirs. *)
Theorem C8_configuration_atomicity (d d' : Dictionary D)
    (n : cd_poisson_generator.cd_poisson_generator) (v : D) :
  d !! "min_rate" = Some v ->
  (v <? dlit 0)%D = true ->
  snd (cd_poisson_generator.Parameters_set d' (cd_poisson_generator.P_ n)) = Returns tt ->
  let failed := cd_poisson_generator.set_status d n in
  let retried := cd_poisson_generator.set_status d' (fst failed) in
  failed = (n, Throws bad_rates) /\
  (forall e, snd (cd_poisson_generator.Parameters_set d (cd_poisson_generator.P_ n))
             = Throws e ->
             cd_poisson_generator.set_status d n = (n, Throws e)) /\
  snd retried = Returns tt /\
  cd_poisson_generator.P_ (fst retried) =
  {| cd_poisson_generator.min_rate_ :=
       updateValue d' "min_rate"
         (cd_poisson_generator.min_rate_ (cd_poisson_generator.P_ n));
     cd_poisson_generator.max_rate_ :=
       updateValue d' "max_rate"
         (cd_poisson_generator.max_rate_ (cd_poisson_generator.P_ n));
     cd_poisson_generator.min_current_ :=
       updateValue d' "min_current"
         (cd_poisson_generator.min_current_ (cd_poisson_generator.P_ n));
     cd_poisson_generator.max_current_ :=
       updateValue d' "max_current"
         (cd_poisson_generator.max_current_ (cd_poisson_generator.P_ n)) |} /\
  (forall x, d' !! "min_rate" = Some x ->
             cd_poisson_generator.min_rate_ (cd_poisson_generator.P_ (fst retried)) = x) /\
  (forall x, d' !! "max_rate" = Some x ->
             cd_poisson_generator.max_rate_ (cd_poisson_generator.P_ (fst retried)) = x) /\
  (forall x, d' !! "min_current" = Some x ->
             cd_poisson_generator.min_current_ (cd_poisson_generator.P_ (fst retried)) = x) /\
  (forall x, d' !! "max_current" = Some x ->
             cd_poisson_generator.max_current_ (cd_poisson_generator.P_ (fst retried)) = x).
Proof.
  intros Hd Hv Hok failed retried.
  assert (Hfail : failed = (n, Throws bad_rates)).
  { apply set_status_throws. rewrite cd_Parameters_set_outcome.
    cbv zeta. rewrite cd_Parameters_set_fields. simpl.
    rewrite (updateValue_Some d "min_rate" _ v Hd), Hv. reflexivity. }
  split; [exact Hfail|]. split; [intros e; apply set_status_throws|].
  unfold retried. rewrite Hfail. simpl fst.
  rewrite (set_status_returns d' n Hok). cbv zeta. simpl.
  rewrite cd_Parameters_set_fields.
  split; [reflexivity|]. split; [reflexivity|].
  repeat split; intros x Hx; apply updateValue_Some; exact Hx.
Qed.

End Configuration.

(** C7, as amended.  [Parameters_::set] of the linear variant throws
    [BadProperty] exactly when the resulting [min_rate] or [max_rate] is
    negative, so that a [min_rate] above [max_rate] is accepted; a
    [set_status] on which it throws leaves the node as it was, and one on
    which it returns takes over the resulting parameters.  [Parameters_::set]
    of the Gaussian variant throws exactly when the resulting [min_rate] or
    [max_rate] is negative or [min_rate] is above [max_rate]: in exact
    arithmetic, exactly when the resulting parameters violate
    [0 <= min_rate <= max_rate]. *)
Theorem C7_parameter_validation :
  (forall (D : Type) (arith : Double D) (random : RandomDev D) (d : Dictionary D)
          (n : cd_poisson_generator.cd_poisson_generator),
     let p' := fst (cd_poisson_generator.Parameters_set d (cd_poisson_generator.P_ n)) in
     if (cd_poisson_generator.min_rate_ p' <? dlit 0)%D
        || (cd_poisson_generator.max_rate_ p' <? dlit 0)%D
     then snd (cd_poisson_generator.Parameters_set d (cd_poisson_generator.P_ n))
          = Throws bad_rates /\
          cd_poisson_generator.set_status d n = (n, Throws bad_rates)
     else snd (cd_poisson_generator.Parameters_set d (cd_poisson_generator.P_ n))
          = Returns tt /\
          snd (cd_poisson_generator.set_status d n) = Returns tt /\
          cd_poisson_generator.P_ (fst (cd_poisson_generator.set_status d n)) = p') /\
  (forall (D : Type) (arith : Double D) (d : Dictionary D)
          (p : rbf_poisson_generator.Parameters_),
     let p' := fst (rbf_poisson_generator.Parameters_set d p) in
     snd (rbf_poisson_generator.Parameters_set d p) =
     if (rbf_poisson_generator.min_rate_rbf_ p' <? dlit 0)%D
        || (rbf_poisson_generator.max_rate_rbf_ p' <? dlit 0)%D
        || (rbf_poisson_generator.min_rate_rbf_ p'
            >? rbf_poisson_generator.max_rate_rbf_ p')%D
     then Throws bad_rates else Returns tt) /\
  (forall (d : Dictionary R) (p : rbf_poisson_generator.Parameters_ (D := R)),
     let p' := fst (rbf_poisson_generator.Parameters_set d p) in
     snd (rbf_poisson_generator.Parameters_set d p) = Returns tt <->
     (0 <= rbf_poisson_generator.min_rate_rbf_ p'
      <= rbf_poisson_generator.max_rate_rbf_ p')%R).
Proof.
  split; [|split].
  - intros D arith random d n p'.
    pose proof (cd_Parameters_set_outcome d (cd_poisson_generator.P_ n)) as E.
    cbv zeta in E. fold p' in E.
    destruct (_ || _).
    + split; [exact E | apply set_status_throws; exact E].
    + rewrite (set_status_returns d n E). repeat split. exact E.
  - intros D arith d p. apply rbf_Parameters_set_outcome.
  - intros d p p'.
    pose proof (rbf_Parameters_set_outcome d p) as E. cbv zeta in E. fold p' in E.
    rewrite E. simpl. unfold Exact.ltb.
    destruct (Rlt_dec (rbf_poisson_generator.min_rate_rbf_ p') 0);
      destruct (Rlt_dec (rbf_poisson_generator.max_rate_rbf_ p') 0);
      destruct (Rlt_dec (rbf_poisson_generator.max_rate_rbf_ p')
                  (rbf_poisson_generator.min_rate_rbf_ p'));
      simpl; split; intros H; try discriminate; try reflexivity; lra.
Qed.

(** ** The rate maps in exact arithmetic *)

Section ExactArithmetic.
Context {random : RandomDev R}.

(** The Gaussian of the specification. *)
Lemma rate_of_average_exact (p : rbf_poisson_generator.Parameters_ (D := R)) (avg : R) :
  rbf_poisson_generator.rate_of_average p avg =
  (rbf_poisson_generator.min_rate_rbf_ p
   + exp (- (avg - rbf_poisson_generator.mean_current_rbf_ p) ^ 2
          / (2 * rbf_poisson_generator.sigma_current_rbf_ p ^ 2))
     * (rbf_poisson_generator.max_rate_rbf_ p
        - rbf_poisson_generator.min_rate_rbf_ p))%R.
Proof.
  unfold rbf_poisson_generator.rate_of_average,
    rbf_poisson_generator.gaussian_argument; simpl.
  do 3 f_equal. unfold Rdiv. f_equal; [ring | f_equal; ring].
Qed.

(** At the centre the Gaussian is 1 and the rate is [max_rate]. *)
Lemma rate_of_average_centre (p : rbf_poisson_generator.Parameters_ (D := R)) :
  rbf_poisson_generator.rate_of_average p
    (rbf_poisson_generator.mean_current_rbf_ p) =
  rbf_poisson_generator.max_rate_rbf_ p.
Proof.
  unfold rbf_poisson_generator.rate_of_average,
    rbf_poisson_generator.gaussian_argument; simpl.
  match goal with |- context [exp ?x] => replace x with 0%R end.
  - rewrite exp_0. ring.
  - unfold Rdiv, Rminus. rewrite Rplus_opp_r. ring.
Qed.




End ExactArithmetic.

(** ** Comparisons and differences in binary64 *)

Section Binary64Facts.

(** NaN compares false with everything. *)
Lemma nan_unordered (c : float) :
  PrimFloat.leb nan c = false /\ PrimFloat.leb c nan = false.
Proof.
  rewrite !leb_spec. change (Prim2SF nan) with S754_nan.
  split; [reflexivity | destruct (Prim2SF c); reflexivity].
Qed.

(** NaN equals nothing. *)
Lemma nan_unequal (x : float) : PrimFloat.eqb x nan = false.
Proof.
  rewrite FloatAxioms.eqb_spec. change (Prim2SF nan) with S754_nan.
  destruct (Prim2SF x); reflexivity.
Qed.

(** Two finite numbers that compare equal are the same number. *)
Lemma SFeqb_finite (s1 s2 : bool) (m1 m2 : positive) (e1 e2 : Z) :
  SFeqb (S754_finite s1 m1 e1) (S754_finite s2 m2 e2) = true ->
  s1 = s2 /\ m1 = m2 /\ e1 = e2.
Proof.
  unfold SFeqb, SFcompare.
  destruct s1, s2; try discriminate;
    destruct (e1 ?= e2) eqn:He; try discriminate;
    destruct (Pos.compare_cont Eq m1 m2) eqn:Hm; try discriminate; intros _;
    apply Z.compare_eq in He; apply Pos.compare_eq in Hm; auto.
Qed.

(** The difference of two doubles that compare equal, and are not infinite,
    is a zero. *)
Lemma sub_of_equal (x y : float) :
  PrimFloat.eqb x y = true -> PrimFloat.is_infinity y = false ->
  PrimFloat.eqb (PrimFloat.sub x y) 0%float = true.
Proof.
  unfold PrimFloat.is_infinity.
  rewrite !FloatAxioms.eqb_spec, abs_spec, sub_spec.
  change (Prim2SF infinity) with (S754_infinity false).
  change (Prim2SF 0) with (S754_zero false).
  destruct (Prim2SF x) as [sx|sx| |sx mx ex] eqn:Hx;
    destruct (Prim2SF y) as [sy|sy| |sy my ey] eqn:Hy; simpl;
    try discriminate; try (destruct sx; discriminate);
    try (destruct sy; discriminate).
  - intros _ _. destruct sx, sy; reflexivity.
  - intros H _. apply SFeqb_finite in H as (-> & -> & ->).
    unfold SF64sub, SFsub. rewrite Z.min_id. unfold shl_align.
    rewrite !Z.sub_diag. reflexivity.
Qed.

(** Two doubles that are numbers are ordered one way or the other. *)
Lemma leb_total (x y : float) :
  PrimFloat.is_nan x = false -> PrimFloat.is_nan y = false ->
  PrimFloat.leb x y = true \/ PrimFloat.leb y x = true.
Proof.
  unfold PrimFloat.is_nan. rewrite !FloatAxioms.eqb_spec, !leb_spec.
  unfold SFeqb, SFleb.
  destruct (Prim2SF x) as [sx|sx| |sx mx ex];
    destruct (Prim2SF y) as [sy|sy| |sy my ey]; simpl;
    try discriminate; intros _ _;
    try (destruct sx; auto; fail); try (destruct sy; auto; fail);
    try (destruct sx, sy; auto; fail).
  change (Pos.compare_cont Eq mx my) with (mx ?= my)%positive.
  change (Pos.compare_cont Eq my mx) with (my ?= mx)%positive.
  rewrite (Z.compare_antisym ex ey), (Pos.compare_antisym mx my).
  destruct sx, sy; auto;
    destruct (ex ?= ey); simpl; auto;
    destruct (mx ?= my)%positive; simpl; auto.
Qed.

(** Doubles that compare equal compare alike with a third. *)
Lemma leb_of_equal (x y z : float) :
  PrimFloat.eqb x y = true -> PrimFloat.leb x z = PrimFloat.leb y z.
Proof.
  rewrite FloatAxioms.eqb_spec, !leb_spec.
  destruct (Prim2SF x) as [sx|sx| |sx mx ex];
    destruct (Prim2SF y) as [sy|sy| |sy my ey];
    try (unfold SFeqb; simpl; discriminate);
    try (unfold SFeqb; simpl; destruct sx; discriminate);
    try (unfold SFeqb; simpl; destruct sy; discriminate).
  - intros _. destruct (Prim2SF z); reflexivity.
  - destruct sx, sy; (discriminate || reflexivity).
  - intros H. apply SFeqb_finite in H as (-> & -> & ->). reflexivity.
Qed.

(** What compares equal to something is a number. *)
Lemma eqb_is_number (x y : float) :
  PrimFloat.eqb x y = true -> PrimFloat.is_nan y = false.
Proof.
  unfold PrimFloat.is_nan. rewrite !FloatAxioms.eqb_spec.
  unfold SFeqb, SFcompare.
  destruct (Prim2SF y) as [sy|sy| |sy my ey].
  - reflexivity.
  - destruct sy; reflexivity.
  - destruct (Prim2SF x); discriminate.
  - intros _. rewrite Z.compare_refl.
    change (Pos.compare_cont Eq my my) with (my ?= my)%positive.
    rewrite Pos.compare_refl. destruct sy; reflexivity.
Qed.

End Binary64Facts.

(** ** Runs of the linear variant, in binary64 *)

Section LinearRuns.
Import cd_poisson_generator Examples.

(** With [min_current = 1 > max_current = 0] the input current 0.5 is at
    least [max_current], where the specification gives [max_rate = 10]; the
    code tests [I <= min_current] first and stores [min_rate = 1], in
    [calibrate] and in [update] alike. *)
Lemma C1_counterexample :
  (0.5%float >=? max_current_ overlapping)%D = true /\
  max_rate_ overlapping = 10%float /\
  rate_ (S_ (state_of (calibrate resolution (node overlapping 0.5%float clear [])))) =
  1%float /\
  rate_ (S_ (state_of (update_step resolution 0 0
                         (node overlapping 0%float (pulse 0.5%float) [])))) =
  1%float.
Proof. vm_compute. repeat split. Qed.

(** With the default parameters (rates 1 and 10, currents 0 and 1) the
    input -1 gives the rate 1, the input 2 gives 10, and the input 0.5, read
    from the ring buffer, gives 5.5. *)
Lemma C1_witness :
  rate_ (S_ (state_of (calibrate resolution
                         (node Parameters_default (-1)%float clear [])))) = 1%float /\
  rate_ (S_ (state_of (calibrate resolution
                         (node Parameters_default 2%float clear [])))) = 10%float /\
  rate_ (S_ (state_of (update_step resolution 0 0
                         (node Parameters_default 0%float (pulse 0.5%float) [])))) =
  5.5%float.
Proof.
  split; [|split].
  - destruct (C1_linear_rate_contract resolution 0 0
                (node Parameters_default (-1)%float clear [])) as [[H _] _].
    rewrite H; reflexivity.
  - destruct (C1_linear_rate_contract resolution 0 0
                (node Parameters_default 2%float clear [])) as [[_ [H _]] _].
    rewrite H; reflexivity.
  - destruct (C1_linear_rate_contract resolution 0 0
                (node Parameters_default 0%float (pulse 0.5%float) [])) as [_ H].
    change (linear_law (P_ (node Parameters_default 0%float (pulse 0.5%float) []))
              0.5%float
              (rate_ (S_ (state_of (update_step resolution 0 0
                 (node Parameters_default 0%float (pulse 0.5%float) [])))))) in H.
    destruct H as [_ [_ H]]. rewrite H; reflexivity.
Defined.

(** The linear variant accepts [min_rate = 10 > max_rate = 1]:
    [Parameters_::set] returns, and [set_status] commits the two rates. *)
Lemma C7_counterexample :
  let p' := fst (Parameters_set swapped_rates Parameters_default) in
  snd (Parameters_set swapped_rates Parameters_default) = Returns tt /\
  min_rate_ p' = 10%float /\
  max_rate_ p' = 1%float /\
  (min_rate_ p' <=? max_rate_ p')%D = false /\
  snd (set_status swapped_rates (node Parameters_default 0%float clear [])) =
  Returns tt /\
  P_ (fst (set_status swapped_rates (node Parameters_default 0%float clear []))) = p'.
Proof. vm_compute. repeat split. Qed.

(** A [set_status] that asks for [min_rate = -1] throws and leaves the node
    as it was; the next one, with the rates 2 and 20, is accepted. *)
Lemma C8_witness :
  let n := node Parameters_default 0%float clear [] in
  let failed := set_status negative_min_rate n in
  let retried := set_status doubled_rates (fst failed) in
  failed = (n, Throws bad_rates) /\
  snd retried = Returns tt /\
  min_rate_ (P_ (fst retried)) = 2%float /\
  max_rate_ (P_ (fst retried)) = 20%float.
Proof.
  intros n failed retried.
  assert (H1 : negative_min_rate !! "min_rate" = Some (-1)%float)
    by (vm_compute; reflexivity).
  assert (H2 : ((-1)%float <? dlit 0)%D = true) by (vm_compute; reflexivity).
  assert (H3 : snd (Parameters_set doubled_rates (P_ n)) = Returns tt)
    by (vm_compute; reflexivity).
  destruct (C8_configuration_atomicity negative_min_rate doubled_rates n _ H1 H2 H3)
    as (F & _ & R & _ & Hmin & Hmax & _).
  split; [exact F|]. split; [exact R|]. split.
  - apply Hmin. vm_compute. reflexivity.
  - apply Hmax. vm_compute. reflexivity.
Defined.

End LinearRuns.

(** ** Runs of the Gaussian variant *)

Section GaussianRuns.
Import rbf_poisson_generator Examples.

(** One slice of one step, from rest, in exact arithmetic.  The draw of the
    slice uses the Poisson mean of [calibrate], made from the initial rate
    5; the rate of the slice, 10, reaches the Poisson generator after the
    draw, by the [set_lambda] that ends the log. *)
Lemma C5_counterexample :
  let n0 := state_of (calibrate 1%R rbf_rest) in
  let r := update 1%R 0 0 1 n0 in
  log_of r =
  [GetValue 0 0%R; SendDSSpike 0; Ldev (1 * 5 * (1 / 1000))%R 1; Handle 7 0 1;
   RecordData 0; SetLambda (1 * rate_ (S_ (state_of r)) * (1 / 1000))%R] /\
  rate_ (S_ (state_of r)) = 10%R.
Proof.
  split; [reflexivity|]. cbv zeta. rewrite rbf_update_rate.
  unfold rate_of_average, gaussian_argument, slice_sum, slice; simpl.
  change (IZR (1 - 0)) with 1%R.
  match goal with |- context [exp ?x] => replace x with 0%R by lra end.
  rewrite exp_0. lra.
Qed.

(** A Gaussian node whose rate is zero, in binary64: [event_hook] draws all
    the same, with the Poisson mean 0. *)
Lemma C6_counterexample :
  rate_ (S_ rbf_silent) = 0%float /\
  poisson_dev_ (V_ rbf_silent) = 0%float /\
  log_of (event_hook {| receiver := 7; stamp_lag := 0; multiplicity := 1 |} rbf_silent) =
  [Ldev 0%float 0].
Proof. vm_compute. repeat split. Qed.

End GaussianRuns.

(** ** Reading and writing the status of a linear node *)

Section Status.
Import cd_poisson_generator.
Context {D : Type} {arith : Double D} {random : RandomDev D}.

(** The names under which [get_status] and [set_status] know the
    parameters and the state. *)
Lemma get_status_lookup (n : cd_poisson_generator) (d : Dictionary D) :
  get_status n d !! "min_rate" = Some (min_rate_ (P_ n)) /\
  get_status n d !! "max_rate" = Some (max_rate_ (P_ n)) /\
  get_status n d !! "min_current" = Some (min_current_ (P_ n)) /\
  get_status n d !! "max_current" = Some (max_current_ (P_ n)) /\
  get_status n d !! "rate" = Some (rate_ (S_ n)) /\
  get_status n d !! "I" = Some (input_current_ (S_ n)).
Proof.
  unfold get_status, State_get, Parameters_get, def.
  repeat split; by simplify_map_eq.
Qed.

Lemma set_status_state (d : Dictionary D) (n : cd_poisson_generator) :
  snd (Parameters_set d (P_ n)) = Returns tt ->
  set_status d n =
  ({| P_ := fst (Parameters_set d (P_ n)); V_ := V_ n;
      S_ := State_set d (fst (Parameters_set d (P_ n))) (S_ n);
      B_ := B_ n; rng := rng n |}, Returns tt).
Proof.
  unfold set_status. destruct (Parameters_set d (P_ n)) as [p' [[]|e]]; simpl;
    [reflexivity | discriminate].
Qed.

(** Writing back the status that was read leaves the node as it is, and
    throws exactly when the node's [min_rate] or [max_rate] is negative. *)
Theorem set_status_of_get_status (n : cd_poisson_generator) (d : Dictionary D) :
  set_status (get_status n d) n =
  (n, if (min_rate_ (P_ n) <? dlit 0)%D || (max_rate_ (P_ n) <? dlit 0)%D
      then Throws bad_rates else Returns tt).
Proof.
  destruct (get_status_lookup n d) as (H1 & H2 & H3 & H4 & H5 & H6).
  unfold set_status, Parameters_set, State_set, updateValue.
  rewrite H1, H2, H3, H4, H5, H6. simpl.
  destruct (_ || _); [reflexivity|].
  destruct n as [[] ? [] ? ?]; reflexivity.
Qed.

(** After a [set_status] that returns, [get_status] reports, under each of
    the six names, the value the dictionary supplied, and the former value
    where it supplied none. *)
Theorem get_status_of_set_status (d d0 : Dictionary D) (n : cd_poisson_generator)
    (name : string) :
  snd (Parameters_set d (P_ n)) = Returns tt ->
  In name ["min_rate"; "max_rate"; "min_current"; "max_current"; "rate"; "I"] ->
  get_status (fst (set_status d n)) d0 !! name =
  match d !! name with
  | Some v => Some v
  | None => get_status n d0 !! name
  end.
Proof.
  intros Hok Hin. rewrite (set_status_state d n Hok).
  destruct (get_status_lookup n d0) as (H1 & H2 & H3 & H4 & H5 & H6).
  unfold fst at 1.
  match goal with |- get_status ?m d0 !! name = _ =>
    destruct (get_status_lookup m d0) as (G1 & G2 & G3 & G4 & G5 & G6) end.
  simpl in Hin.
  destruct Hin as [<-|[<-|[<-|[<-|[<-|[<-|[]]]]]]].
  - rewrite G1, H1. simpl. rewrite cd_Parameters_set_fields. simpl.
    unfold updateValue. destruct (d !! "min_rate"); reflexivity.
  - rewrite G2, H2. simpl. rewrite cd_Parameters_set_fields. simpl.
    unfold updateValue. destruct (d !! "max_rate"); reflexivity.
  - rewrite G3, H3. simpl. rewrite cd_Parameters_set_fields. simpl.
    unfold updateValue. destruct (d !! "min_current"); reflexivity.
  - rewrite G4, H4. simpl. rewrite cd_Parameters_set_fields. simpl.
    unfold updateValue. destruct (d !! "max_current"); reflexivity.
  - rewrite G5, H5. simpl. unfold updateValue.
    destruct (d !! "rate"); reflexivity.
  - rewrite G6, H6. simpl. unfold updateValue.
    destruct (d !! "I"); reflexivity.
Qed.

(** The data logger can record the quantities ["rate"] and ["I"] and no
    others, and each reads what [get_status] reports under its name. *)
Theorem recordables_read_status (n : cd_poisson_generator) (d : Dictionary D)
    (name : string) :
  match recordablesMap_ !! name with
  | Some f => (name = "rate" \/ name = "I") /\ get_status n d !! name = Some (f n)
  | None => name <> "rate" /\ name <> "I"
  end.
Proof.
  destruct (get_status_lookup n d) as (_ & _ & _ & _ & H5 & H6).
  unfold recordablesMap_. cbv zeta. unfold insert_ at 2. rewrite lookup_empty.
  unfold insert_. rewrite lookup_insert_ne by done. rewrite lookup_empty.
  destruct (decide (name = "I")) as [->|HI].
  - rewrite lookup_insert. split; [right; reflexivity | exact H6].
  - rewrite lookup_insert_ne by congruence.
    destruct (decide (name = "rate")) as [->|HR].
    + rewrite lookup_insert. split; [left; reflexivity | exact H5].
    + rewrite lookup_insert_ne by congruence. rewrite lookup_empty.
      split; assumption.
Qed.

End Status.

(** ** Loops, slice by slice *)

Section SimLoops.
Context {St D : Type}.

Lemma bind_ret_l {A B} (a : A) (k : A -> Sim (St := St) (D := D) B) (s : St) :
  bind (ret a) k s = k a s.
Proof. unfold bind, ret. destruct (k a s) as [[b s2] l2]. reflexivity. Qed.

Lemma bind_assoc {A B C} (m : Sim (St := St) (D := D) A) (k : A -> Sim B)
    (k' : B -> Sim C) (s : St) :
  bind (bind m k) k' s = bind m (fun a => bind (k a) k') s.
Proof.
  unfold bind. destruct (m s) as [[a s1] l1].
  destruct (k a s1) as [[b s2] l2]. destruct (k' b s2) as [[c s3] l3].
  rewrite app_assoc. reflexivity.
Qed.

Lemma bind_ext {A B} (m : Sim (St := St) (D := D) A) (k k' : A -> Sim B) (s : St) :
  (forall a s', k a s' = k' a s') -> bind m k s = bind m k' s.
Proof.
  intros E. unfold bind. destruct (m s) as [[a s1] l1]. rewrite E. reflexivity.
Qed.

(** A loop of [a + b] iterations is the loop of the first [a] followed by
    the loop of the other [b]. *)
Lemma for_each_lag_split {A} (body : Z -> A -> Sim (St := St) (D := D) A)
    (a b : nat) (lag : Z) (x : A) (s : St) :
  for_each_lag (a + b) lag body x s =
  bind (for_each_lag a lag body x) (for_each_lag b (lag + Z.of_nat a) body) s.
Proof.
  revert lag x s. induction a as [|a IH]; intros lag x s.
  - simpl. rewrite bind_ret_l, Z.add_0_r. reflexivity.
  - change (for_each_lag (S a + b) lag body x)
      with (bind (body lag x) (for_each_lag (a + b) (lag + 1) body)).
    change (for_each_lag (S a) lag body x)
      with (bind (body lag x) (for_each_lag a (lag + 1) body)).
    rewrite bind_assoc. apply bind_ext. intros y s'. rewrite IH.
    replace (lag + 1 + Z.of_nat a) with (lag + Z.of_nat (S a)) by lia.
    reflexivity.
Qed.

End SimLoops.

Section LogFacts2.
Context {D : Type}.

Lemma recorded_app (l1 l2 : list (action D)) :
  recorded (l1 ++ l2) = recorded l1 ++ recorded l2.
Proof. apply flat_map_app. Qed.

Lemma handled_app (l1 l2 : list (action D)) :
  handled (l1 ++ l2) = handled l1 ++ handled l2.
Proof. apply flat_map_app. Qed.

Lemma map_fst_entries (b : RingBuffer D) (n : nat) (lag : Z) :
  map fst (entries b lag n) = steps_from lag n.
Proof.
  revert lag. induction n as [|n IH]; intros lag; simpl;
    [reflexivity | rewrite IH; reflexivity].
Qed.

Lemma length_steps_from (n : nat) (lag : Z) : length (steps_from lag n) = n.
Proof.
  revert lag. induction n as [|n IH]; intros lag; simpl;
    [reflexivity | rewrite IH; reflexivity].
Qed.

(** The entries of a slice are those of the slots [lags from to]. *)
Lemma entries_steps (b : RingBuffer D) (n : nat) (lag : Z) :
  entries b lag n = map (fun k => (k, b k)) (steps_from lag n).
Proof.
  revert lag. induction n as [|n IH]; intros lag; simpl;
    [reflexivity | rewrite IH; reflexivity].
Qed.

Lemma steps_from_bounds (n : nat) (lag k : Z) :
  In k (steps_from lag n) <-> lag <= k < lag + Z.of_nat n.
Proof.
  revert lag. induction n as [|n IH]; intros lag; simpl.
  - split; [intros [] | lia].
  - rewrite IH. lia.
Qed.

End LogFacts2.

(** ** Slices of the linear variant *)

Section LinearSlices.
Import cd_poisson_generator.
Context {D : Type} {arith : Double D} {random : RandomDev D}.
Variable resolution_ms : D.

(** What one iteration leaves of the node: the parameters, the buffer with
    the slot cleared, and rate, current and mean as [after_rate] has them. *)
Lemma update_step_frame (T lag : Z) (n : cd_poisson_generator) :
  let n' := state_of (update_step resolution_ms T lag n) in
  let m := after_rate resolution_ms lag n in
  P_ n' = P_ n /\ S_ n' = S_ m /\ V_ n' = V_ m /\
  B_ n' = {| currents_ := snd (get_value lag (currents_ (B_ n)));
             step_ := step_ (B_ n) |} /\
  rng n' = if (rate_ (S_ m) >? dlit 0)%D
           then snd (ldev (poisson_dev_ (V_ m)) (rng m)) else rng n.
Proof.
  pose proof (update_step_eq resolution_ms T lag n) as E. cbv zeta in E.
  cbv zeta. rewrite E. clear E. unfold state_of; simpl.
  assert (HP : P_ (after_rate resolution_ms lag n) = P_ n)
    by (unfold after_rate; cbv zeta; destruct (negb _); reflexivity).
  assert (HB : B_ (after_rate resolution_ms lag n) =
               {| currents_ := snd (get_value lag (currents_ (B_ n)));
                  step_ := step_ (B_ n) |})
    by (unfold after_rate; cbv zeta; destruct (negb _); reflexivity).
  assert (HR : rng (after_rate resolution_ms lag n) = rng n)
    by (unfold after_rate; cbv zeta; destruct (negb _); reflexivity).
  destruct (dlit 0 <? rate_ (S_ (after_rate resolution_ms lag n)))%D; simpl;
    repeat split; assumption.
Qed.

(** One iteration reads one slot and logs one step. *)
Lemma update_step_reads (T lag : Z) (n : cd_poisson_generator) :
  drained (log_of (update_step resolution_ms T lag n)) =
  [(lag, currents_ (B_ n) lag)] /\
  recorded (log_of (update_step resolution_ms T lag n)) = [T + lag].
Proof.
  pose proof (update_step_eq resolution_ms T lag n) as E. cbv zeta in E.
  rewrite E. clear E. unfold log_of; simpl.
  rewrite !drained_app, !recorded_app.
  destruct (negb _);
    destruct (dlit 0 <? rate_ (S_ (after_rate resolution_ms lag n)))%D; simpl;
    try (split; reflexivity);
    destruct (fst (ldev _ _) >? 0); split; reflexivity.
Qed.

(** One iteration keeps a consistent state consistent. *)
Lemma update_step_consistent (T lag : Z) (n : cd_poisson_generator) :
  consistent resolution_ms n ->
  consistent resolution_ms (state_of (update_step resolution_ms T lag n)).
Proof.
  intros [HR HL].
  destruct (update_step_frame T lag n) as (HP & HS & HV & _).
  unfold consistent. rewrite HP, HS, HV.
  unfold after_rate. cbv zeta.
  destruct (negb _); simpl; split; (reflexivity || assumption).
Qed.

(** The loop of [update]: the parameters stay, the slots of the slice are
    read in order and cleared, every step is logged, and a consistent state
    stays consistent. *)
Lemma update_loop_spec (T : Z) (cnt : nat) (lag : Z) (n : cd_poisson_generator) :
  let r := for_each_lag cnt lag (fun lag _ => update_step resolution_ms T lag) tt n in
  P_ (state_of r) = P_ n /\
  step_ (B_ (state_of r)) = step_ (B_ n) /\
  (forall k, currents_ (B_ (state_of r)) k =
             if (lag <=? k) && (k <? lag + Z.of_nat cnt) then dlit 0
             else currents_ (B_ n) k) /\
  drained (log_of r) = entries (currents_ (B_ n)) lag cnt /\
  recorded (log_of r) = map (Z.add T) (steps_from lag cnt) /\
  (consistent resolution_ms n -> consistent resolution_ms (state_of r)).
Proof.
  revert lag n. induction cnt as [|cnt IH]; intros lag n; cbv zeta.
  - simpl. split; [reflexivity|]. split; [reflexivity|].
    split; [|split; [reflexivity|split; [reflexivity | intros; assumption]]].
    intros k. unfold state_of, ret; simpl. change (Z.of_nat 0) with 0.
    destruct (Z.leb_spec lag k), (Z.ltb_spec k (lag + 0)); simpl;
      try reflexivity; lia.
  - change (for_each_lag (S cnt) lag (fun lag _ => update_step resolution_ms T lag) tt n)
      with (bind (update_step resolution_ms T lag)
              (for_each_lag cnt (lag + 1)
                 (fun lag _ => update_step resolution_ms T lag)) n).
    rewrite state_bind, log_bind.
    destruct (update_step_frame T lag n) as (HP & _ & _ & HB & _).
    destruct (update_step_reads T lag n) as (HD & HRec).
    cbv zeta in HP, HB.
    set (n1 := state_of (update_step resolution_ms T lag n)) in *.
    destruct (fst (fst (update_step resolution_ms T lag n))).
    destruct (IH (lag + 1) n1) as (HP' & HSt' & HB' & HD' & HRec' & HC').
    assert (HE : entries (currents_ (B_ n1)) (lag + 1) cnt
                 = entries (currents_ (B_ n)) (lag + 1) cnt).
    { apply entries_ext. intros k Hk. rewrite HB. simpl.
      destruct (k =? lag) eqn:K; [apply Z.eqb_eq in K; lia | reflexivity]. }
    split; [congruence|]. split; [rewrite HSt', HB; reflexivity|].
    split; [|split; [|split]].
    + intros k. rewrite HB', HB. simpl.
      destruct (k =? lag) eqn:K.
      * apply Z.eqb_eq in K. subst k.
        replace (lag <=? lag) with true by (symmetry; apply Z.leb_le; lia).
        replace (lag <? lag + Z.of_nat (S cnt)) with true
          by (symmetry; apply Z.ltb_lt; lia).
        simpl. destruct (_ && _); reflexivity.
      * apply Z.eqb_neq in K.
        replace (lag + 1 <=? k) with (lag <=? k)
          by (destruct (Z.leb_spec lag k), (Z.leb_spec (lag + 1) k); lia).
        replace (lag + 1 + Z.of_nat cnt) with (lag + Z.of_nat (S cnt)) by lia.
        reflexivity.
    + rewrite drained_app, HD, HD', HE. reflexivity.
    + rewrite recorded_app, HRec, HRec'. reflexivity.
    + intros HC. apply HC'. apply update_step_consistent. exact HC.
Qed.

(** A loop over steps whose currents are at most [min_current], from a
    rate that is not positive, under a [min_rate] that is not positive: no
    deviate is drawn and no spike event is sent. *)
Lemma update_loop_silent (T : Z) (cnt : nat) (lag : Z) (n : cd_poisson_generator) :
  (min_rate_ (P_ n) >? dlit 0)%D = false ->
  (rate_ (S_ n) >? dlit 0)%D = false ->
  (forall k, lag <= k < lag + Z.of_nat cnt ->
             (currents_ (B_ n) k <=? min_current_ (P_ n))%D = true) ->
  let r := for_each_lag cnt lag (fun lag _ => update_step resolution_ms T lag) tt n in
  draws (log_of r) = [] /\ spikes (log_of r) = [] /\
  rng (state_of r) = rng n /\
  (rate_ (S_ (state_of r)) >? dlit 0)%D = false.
Proof.
  revert lag n. induction cnt as [|cnt IH]; intros lag n Hmin Hrate Hcur; cbv zeta.
  - simpl. repeat split; assumption.
  - change (for_each_lag (S cnt) lag (fun lag _ => update_step resolution_ms T lag) tt n)
      with (bind (update_step resolution_ms T lag)
              (for_each_lag cnt (lag + 1)
                 (fun lag _ => update_step resolution_ms T lag)) n).
    rewrite state_bind, log_bind.
    destruct (update_step_frame T lag n) as (HP & HS & HV & HB & HR).
    cbv zeta in HP, HS, HV, HB, HR.
    pose proof (update_step_draws resolution_ms T lag n) as HD.
    pose proof (update_step_spikes resolution_ms T lag n) as HSp.
    cbv zeta in HD, HSp.
    assert (Hm : (rate_ (S_ (after_rate resolution_ms lag n)) >? dlit 0)%D = false).
    { pose proof (after_rate_spec resolution_ms lag n) as A. cbv zeta in A.
      destruct (negb _).
      - destruct A as [-> _]. unfold rate_of_current.
        rewrite (Hcur lag) by lia. exact Hmin.
      - destruct A as [-> _]. exact Hrate. }
    rewrite Hm in HD, HSp, HR.
    set (n1 := state_of (update_step resolution_ms T lag n)) in *.
    destruct (fst (fst (update_step resolution_ms T lag n))).
    destruct (IH (lag + 1) n1) as (HD' & HSp' & HR' & HRate').
    + rewrite HP. exact Hmin.
    + rewrite HS. exact Hm.
    + intros k Hk. rewrite HP, HB. simpl.
      destruct (k =? lag) eqn:K; [apply Z.eqb_eq in K; lia|].
      apply Hcur. lia.
    + rewrite draws_app, spikes_app, HD, HSp, HD', HSp', HR', HR.
      repeat split. exact HRate'.
Qed.

End LinearSlices.

(** ** Slices of the Gaussian variant *)

Section RbfSlices.
Import rbf_poisson_generator.
Context {D : Type} {arith : Double D} {libm : StdExp D} {random : RandomDev D}.
Variable resolution_ms : D.

(** The hooks of one step: one deviate for each target, and spike events for
    targets only. *)
Lemma hooks_draws (lag : Z) (ts : list Z) (n : rbf_poisson_generator) :
  let r := for_each ts
             (fun t => event_hook {| receiver := t; stamp_lag := lag;
                                     multiplicity := 1 |}) n in
  length (draws (log_of r)) = length ts /\
  Forall (fun h => In (fst (fst h)) ts) (handled (log_of r)) /\
  recorded (log_of r) = [].
Proof.
  revert n. induction ts as [|t ts IH]; intros n; cbv zeta.
  - simpl. repeat split. constructor.
  - change (for_each (t :: ts)
              (fun t => event_hook {| receiver := t; stamp_lag := lag;
                                      multiplicity := 1 |}) n)
      with (bind (event_hook {| receiver := t; stamp_lag := lag; multiplicity := 1 |})
              (fun _ => for_each ts
                 (fun t => event_hook {| receiver := t; stamp_lag := lag;
                                         multiplicity := 1 |})) n).
    rewrite log_bind.
    set (e := {| receiver := t; stamp_lag := lag; multiplicity := 1 |}).
    destruct (IH (state_of (event_hook e n))) as (HL & HH & HR).
    assert (E : log_of (event_hook e n) =
                Ldev (poisson_dev_ (V_ n)) (fst (ldev (poisson_dev_ (V_ n)) (rng n)))
                :: (if fst (ldev (poisson_dev_ (V_ n)) (rng n)) >? 0
                    then [Handle t lag (fst (ldev (poisson_dev_ (V_ n)) (rng n)))]
                    else [])).
    { pose proof (event_hook_eq e n) as E. cbv zeta in E. rewrite E. reflexivity. }
    rewrite draws_app, handled_app, recorded_app, length_app, HL, HR.
    rewrite E. simpl.
    split; [|split].
    + destruct (_ >? 0); reflexivity.
    + apply Forall_app. split.
      * destruct (_ >? 0); simpl; repeat constructor.
      * eapply Forall_impl; [exact HH|]. intros h Hh. right. exact Hh.
    + destruct (_ >? 0); reflexivity.
Qed.

(** One iteration: the buffer keeps its step size and loses the slot; one
    step is logged; every target gets its deviate. *)
Lemma rbf_update_step_more (T lag : Z) (current_sum : D) (n : rbf_poisson_generator) :
  let r := update_step T lag current_sum n in
  step_ (B_ (state_of r)) = step_ (B_ n) /\
  recorded (log_of r) = [T + lag] /\
  length (draws (log_of r)) = length (targets n) /\
  Forall (fun h => In (fst (fst h)) (targets n)) (handled (log_of r)).
Proof.
  pose proof (rbf_update_step_eq T lag current_sum n) as E. cbv zeta in E.
  cbv zeta. rewrite E. clear E.
  set (n1 := with_B _ n).
  destruct (hooks_frame lag (targets n) n1) as ((_ & _ & _ & HB & _) & _ & _).
  destruct (hooks_draws lag (targets n) n1) as (HL & HH & HR).
  remember (for_each (targets n)
              (fun t => event_hook {| receiver := t; stamp_lag := lag;
                                      multiplicity := 1 |}) n1) as r eqn:Hr.
  clear Hr. destruct r as [[u s1] l1].
  unfold state_of, log_of in *. simpl in *.
  split; [rewrite HB; reflexivity|].
  change (GetValue lag (currents_ (B_ n) lag) :: SendDSSpike lag
          :: l1 ++ [RecordData (T + lag)])
    with ([GetValue lag (currents_ (B_ n) lag); SendDSSpike lag]
          ++ l1 ++ [RecordData (T + lag)]).
  rewrite !recorded_app, !draws_app, !handled_app, HR, !length_app, HL.
  simpl. split; [reflexivity|]. split; [lia|].
  rewrite app_nil_r. exact HH.
Qed.

(** The loop of [update] on the buffer, the data logger and the targets. *)
Lemma rbf_loop_more (T : Z) (cnt : nat) (lag : Z) (current_sum : D)
    (n : rbf_poisson_generator) :
  let r := for_each_lag cnt lag (update_step T) current_sum n in
  step_ (B_ (state_of r)) = step_ (B_ n) /\
  (forall k, currents_ (B_ (state_of r)) k =
             if (lag <=? k) && (k <? lag + Z.of_nat cnt) then dlit 0
             else currents_ (B_ n) k) /\
  recorded (log_of r) = map (Z.add T) (steps_from lag cnt) /\
  length (draws (log_of r)) = (cnt * length (targets n))%nat /\
  Forall (fun h => In (fst (fst h)) (targets n)) (handled (log_of r)).
Proof.
  revert lag current_sum n.
  induction cnt as [|cnt IH]; intros lag current_sum n; cbv zeta.
  - simpl. split; [reflexivity|].
    split; [|split; [reflexivity|split; [reflexivity | constructor]]].
    intros k. unfold state_of, ret; simpl. change (Z.of_nat 0) with 0.
    destruct (Z.leb_spec lag k), (Z.ltb_spec k (lag + 0)); simpl;
      try reflexivity; lia.
  - change (for_each_lag (S cnt) lag (update_step T) current_sum n)
      with (bind (update_step T lag current_sum)
              (for_each_lag cnt (lag + 1) (update_step T)) n).
    rewrite state_bind, log_bind.
    destruct (rbf_update_step_spec T lag current_sum n)
      as (_ & (_ & _ & _ & HT) & HB & _ & _).
    destruct (rbf_update_step_more T lag current_sum n) as (HSt & HRec & HL & HH).
    cbv zeta in HT, HB, HSt, HRec, HL, HH.
    set (n1 := state_of (update_step T lag current_sum n)) in *.
    destruct (IH (lag + 1) (fst (fst (update_step T lag current_sum n))) n1)
      as (HSt' & HB' & HRec' & HL' & HH').
    split; [congruence|]. split; [|split; [|split]].
    + intros k. rewrite HB', HB.
      destruct (k =? lag) eqn:K.
      * apply Z.eqb_eq in K. subst k.
        replace (lag <=? lag) with true by (symmetry; apply Z.leb_le; lia).
        replace (lag <? lag + Z.of_nat (S cnt)) with true
          by (symmetry; apply Z.ltb_lt; lia).
        simpl. destruct (_ && _); reflexivity.
      * apply Z.eqb_neq in K.
        replace (lag + 1 <=? k) with (lag <=? k)
          by (destruct (Z.leb_spec lag k), (Z.leb_spec (lag + 1) k); lia).
        replace (lag + 1 + Z.of_nat cnt) with (lag + Z.of_nat (S cnt)) by lia.
        reflexivity.
    + rewrite recorded_app, HRec, HRec'. reflexivity.
    + rewrite draws_app, length_app, HL, HL', HT. simpl. lia.
    + rewrite handled_app. apply Forall_app. split; [exact HH|].
      rewrite <- HT. exact HH'.
Qed.

End RbfSlices.

(** ** Current events and the ring buffer *)

Section Handling.
Context {D : Type} {arith : Double D} {libm : StdExp D} {random : RandomDev D}.
Variable resolution_ms : D.

(** The linear variant's [handle] changes the ring buffer alone, where each
    slot gets the weighted currents due at it. *)
Lemma cd_handle_all_spec (es : list (CurrentEvent D))
    (n : cd_poisson_generator.cd_poisson_generator) :
  let n' := cd_poisson_generator.handle_all es n in
  cd_poisson_generator.P_ n' = cd_poisson_generator.P_ n /\
  cd_poisson_generator.S_ n' = cd_poisson_generator.S_ n /\
  cd_poisson_generator.V_ n' = cd_poisson_generator.V_ n /\
  cd_poisson_generator.rng n' = cd_poisson_generator.rng n /\
  cd_poisson_generator.step_ (cd_poisson_generator.B_ n') =
  cd_poisson_generator.step_ (cd_poisson_generator.B_ n) /\
  forall k, cd_poisson_generator.currents_ (cd_poisson_generator.B_ n') k =
            arrivals k es (cd_poisson_generator.currents_ (cd_poisson_generator.B_ n) k).
Proof.
  revert n. induction es as [|e es IH]; intros n; cbv zeta.
  - simpl. repeat split.
  - change (cd_poisson_generator.handle_all (e :: es) n)
      with (cd_poisson_generator.handle_all es
              (cd_poisson_generator.handle (rel_delivery_steps e) (weight e)
                 (current e) n)).
    destruct (IH (cd_poisson_generator.handle (rel_delivery_steps e) (weight e)
                    (current e) n)) as (HP & HS & HV & HR & HSt & HB).
    rewrite HP, HS, HV, HR, HSt. repeat split.
    intros k. rewrite HB. reflexivity.
Qed.

(** The same of the Gaussian variant's [handle]. *)
Lemma rbf_handle_all_spec (es : list (CurrentEvent D))
    (n : rbf_poisson_generator.rbf_poisson_generator) :
  let n' := rbf_poisson_generator.handle_all es n in
  rbf_poisson_generator.P_ n' = rbf_poisson_generator.P_ n /\
  rbf_poisson_generator.S_ n' = rbf_poisson_generator.S_ n /\
  rbf_poisson_generator.V_ n' = rbf_poisson_generator.V_ n /\
  rbf_poisson_generator.rng n' = rbf_poisson_generator.rng n /\
  rbf_poisson_generator.targets n' = rbf_poisson_generator.targets n /\
  rbf_poisson_generator.step_ (rbf_poisson_generator.B_ n') =
  rbf_poisson_generator.step_ (rbf_poisson_generator.B_ n) /\
  forall k, rbf_poisson_generator.currents_ (rbf_poisson_generator.B_ n') k =
            arrivals k es (rbf_poisson_generator.currents_ (rbf_poisson_generator.B_ n) k).
Proof.
  revert n. induction es as [|e es IH]; intros n; cbv zeta.
  - simpl. repeat split.
  - change (rbf_poisson_generator.handle_all (e :: es) n)
      with (rbf_poisson_generator.handle_all es
              (rbf_poisson_generator.handle (rel_delivery_steps e) (weight e)
                 (current e) n)).
    destruct (IH (rbf_poisson_generator.handle (rel_delivery_steps e) (weight e)
                    (current e) n)) as (HP & HS & HV & HR & HT & HSt & HB).
    rewrite HP, HS, HV, HR, HT, HSt. repeat split.
    intros k. rewrite HB. reflexivity.
Qed.

(** [handle] touches nothing but the ring buffer: parameters, state, Poisson
    mean and random source of a node are the same after any number of
    current events, in both variants. *)
Theorem handle_changes_buffer_only (es : list (CurrentEvent D))
    (n : cd_poisson_generator.cd_poisson_generator)
    (g : rbf_poisson_generator.rbf_poisson_generator) :
  (let n' := cd_poisson_generator.handle_all es n in
   cd_poisson_generator.P_ n' = cd_poisson_generator.P_ n /\
   cd_poisson_generator.S_ n' = cd_poisson_generator.S_ n /\
   cd_poisson_generator.V_ n' = cd_poisson_generator.V_ n /\
   cd_poisson_generator.rng n' = cd_poisson_generator.rng n /\
   forall k, (forall e, In e es -> rel_delivery_steps e <> k) ->
             cd_poisson_generator.currents_ (cd_poisson_generator.B_ n') k =
             cd_poisson_generator.currents_ (cd_poisson_generator.B_ n) k) /\
  (let g' := rbf_poisson_generator.handle_all es g in
   rbf_poisson_generator.P_ g' = rbf_poisson_generator.P_ g /\
   rbf_poisson_generator.S_ g' = rbf_poisson_generator.S_ g /\
   rbf_poisson_generator.V_ g' = rbf_poisson_generator.V_ g /\
   rbf_poisson_generator.rng g' = rbf_poisson_generator.rng g /\
   forall k, (forall e, In e es -> rel_delivery_steps e <> k) ->
             rbf_poisson_generator.currents_ (rbf_poisson_generator.B_ g') k =
             rbf_poisson_generator.currents_ (rbf_poisson_generator.B_ g) k).
Proof.
  assert (A : forall k (x : D), (forall e, In e es -> rel_delivery_steps e <> k) ->
                                arrivals k es x = x).
  { intros k. induction es as [|e es' IH]; intros x H; [reflexivity|].
    unfold arrivals. simpl.
    destruct (k =? rel_delivery_steps e) eqn:K.
    - apply Z.eqb_eq in K. exfalso. apply (H e); [left; reflexivity | congruence].
    - apply IH. intros e' He'. apply H. right. exact He'. }
  split.
  - destruct (cd_handle_all_spec es n) as (HP & HS & HV & HR & _ & HB).
    cbv zeta. repeat split; try assumption.
    intros k Hk. rewrite HB. apply A. exact Hk.
  - destruct (rbf_handle_all_spec es g) as (HP & HS & HV & HR & _ & _ & HB).
    cbv zeta. repeat split; try assumption.
    intros k Hk. rewrite HB. apply A. exact Hk.
Qed.

(** What [update] reads after [init_buffers_] and the current events [es]:
    at each step of the slice, the weighted currents due at the step, added
    to [0.0] in the order of arrival; in both variants. *)
Theorem update_reads_arrivals (T from to : Z) (es : list (CurrentEvent D))
    (n : cd_poisson_generator.cd_poisson_generator)
    (g : rbf_poisson_generator.rbf_poisson_generator) :
  drained (log_of (cd_poisson_generator.update resolution_ms T from to
                     (cd_poisson_generator.handle_all es
                        (cd_poisson_generator.init_buffers_ resolution_ms n)))) =
  map (fun k => (k, arrivals k es (dlit 0))) (lags from to) /\
  drained (log_of (rbf_poisson_generator.update resolution_ms T from to
                     (rbf_poisson_generator.handle_all es
                        (rbf_poisson_generator.init_buffers_ resolution_ms g)))) =
  map (fun k => (k, arrivals k es (dlit 0))) (lags from to).
Proof.
  split.
  - set (n0 := cd_poisson_generator.init_buffers_ resolution_ms n).
    destruct (cd_handle_all_spec es n0) as (_ & _ & _ & _ & _ & HB).
    cbv zeta in HB.
    destruct (update_loop_spec resolution_ms T (Z.to_nat (to - from)) from
                (cd_poisson_generator.handle_all es n0)) as (_ & _ & _ & HD & _).
    unfold cd_poisson_generator.update, for_lags, lags. rewrite HD, entries_steps.
    apply map_ext. intros k. rewrite HB. reflexivity.
  - set (g0 := rbf_poisson_generator.init_buffers_ resolution_ms g).
    destruct (rbf_handle_all_spec es g0) as (_ & _ & _ & _ & _ & _ & HB).
    cbv zeta in HB.
    destruct (rbf_update_log resolution_ms T from to
                (rbf_poisson_generator.handle_all es g0)) as (l & -> & _ & HD).
    rewrite drained_app, HD. simpl. rewrite app_nil_r.
    unfold slice, lags. rewrite entries_steps.
    apply map_ext. intros k. rewrite HB. reflexivity.
Qed.

(** [update] takes the currents of its slice out of the ring buffer: after
    it the slots of the slice hold [0.0], the other slots what they held,
    and the parameters are those before; in both variants. *)
Theorem update_clears_slice (T from to k : Z)
    (n : cd_poisson_generator.cd_poisson_generator)
    (g : rbf_poisson_generator.rbf_poisson_generator) :
  (let n' := state_of (cd_poisson_generator.update resolution_ms T from to n) in
   cd_poisson_generator.currents_ (cd_poisson_generator.B_ n') k =
   (if (from <=? k) && (k <? to) then dlit 0
    else cd_poisson_generator.currents_ (cd_poisson_generator.B_ n) k) /\
   cd_poisson_generator.P_ n' = cd_poisson_generator.P_ n) /\
  (let g' := state_of (rbf_poisson_generator.update resolution_ms T from to g) in
   rbf_poisson_generator.currents_ (rbf_poisson_generator.B_ g') k =
   (if (from <=? k) && (k <? to) then dlit 0
    else rbf_poisson_generator.currents_ (rbf_poisson_generator.B_ g) k) /\
   rbf_poisson_generator.P_ g' = rbf_poisson_generator.P_ g).
Proof.
  assert (R : forall c : nat, c = Z.to_nat (to - from) ->
              (from <=? k) && (k <? from + Z.of_nat c) = (from <=? k) && (k <? to)).
  { intros c ->. destruct (Z.leb_spec from k); [|reflexivity]. simpl.
    destruct (Z.ltb_spec k (from + Z.of_nat (Z.to_nat (to - from)))),
             (Z.ltb_spec k to); try reflexivity; lia. }
  split; cbv zeta.
  - destruct (update_loop_spec resolution_ms T (Z.to_nat (to - from)) from n)
      as (HP & _ & HB & _).
    unfold cd_poisson_generator.update, for_lags.
    rewrite HB, HP, R by reflexivity. split; reflexivity.
  - pose proof (rbf_update_eq resolution_ms T from to g) as E. cbv zeta in E.
    rewrite E. clear E. unfold state_of at 1 3. simpl.
    destruct (rbf_loop_spec T (Z.to_nat (to - from)) from (dlit 0) g)
      as (_ & (HP & _) & _).
    destruct (rbf_loop_more T (Z.to_nat (to - from)) from (dlit 0) g)
      as (_ & HB & _).
    unfold for_lags. rewrite HB, HP, R by reflexivity. split; reflexivity.
Qed.

(** [update] logs data once for every step of its slice, in order, whether
    a spike is sent or not; in both variants. *)
Theorem update_records_every_step (T from to : Z)
    (n : cd_poisson_generator.cd_poisson_generator)
    (g : rbf_poisson_generator.rbf_poisson_generator) :
  recorded (log_of (cd_poisson_generator.update resolution_ms T from to n)) =
  map (Z.add T) (lags from to) /\
  recorded (log_of (rbf_poisson_generator.update resolution_ms T from to g)) =
  map (Z.add T) (lags from to).
Proof.
  split.
  - destruct (update_loop_spec resolution_ms T (Z.to_nat (to - from)) from n)
      as (_ & _ & _ & _ & HR & _).
    exact HR.
  - pose proof (rbf_update_eq resolution_ms T from to g) as E. cbv zeta in E.
    rewrite E. clear E. unfold log_of at 1. simpl.
    destruct (rbf_loop_more T (Z.to_nat (to - from)) from (dlit 0) g)
      as (_ & _ & HR & _).
    rewrite recorded_app. unfold for_lags. rewrite HR. simpl.
    rewrite app_nil_r. reflexivity.
Qed.

End Handling.

(** ** The linear variant over slices and status changes *)

Section LinearProperties.
Import cd_poisson_generator.
Context {D : Type} {arith : Double D} {random : RandomDev D}.
Variable resolution_ms : D.

(** [calibrate] makes the state consistent. *)
Lemma calibrate_consistent (n : cd_poisson_generator) :
  consistent resolution_ms (state_of (calibrate resolution_ms n)).
Proof. rewrite calibrate_state. split; reflexivity. Qed.

(** A consistent state stays consistent over [update]: at the end of every
    slice the rate is the rate of the last input current seen, the mean of
    the Poisson device is [resolution * rate * 1e-3], and the parameters are
    untouched. *)
Theorem update_keeps_consistent (T from to : Z) (n : cd_poisson_generator) :
  consistent resolution_ms n ->
  let n' := state_of (update resolution_ms T from to n) in
  consistent resolution_ms n' /\ P_ n' = P_ n /\ step_ (B_ n') = step_ (B_ n).
Proof.
  intros HC.
  destruct (update_loop_spec resolution_ms T (Z.to_nat (to - from)) from n)
    as (HP & HSt & _ & _ & _ & HC').
  cbv zeta. unfold update, for_lags.
  split; [apply HC'; exact HC|]. split; assumption.
Qed.

(** A slice in which no current exceeds [min_current], entered with a rate
    that is not positive under a [min_rate] that is not positive, is silent:
    no deviate is drawn, the random source is not advanced, and no spike
    event is sent. *)
Theorem silent_slice (T from to : Z) (n : cd_poisson_generator) :
  (min_rate_ (P_ n) >? dlit 0)%D = false ->
  (rate_ (S_ n) >? dlit 0)%D = false ->
  (forall k, from <= k < to ->
             (currents_ (B_ n) k <=? min_current_ (P_ n))%D = true) ->
  let r := update resolution_ms T from to n in
  draws (log_of r) = [] /\ spikes (log_of r) = [] /\
  rng (state_of r) = rng n /\
  (rate_ (S_ (state_of r)) >? dlit 0)%D = false.
Proof.
  intros Hmin Hrate Hcur. unfold update, for_lags.
  apply update_loop_silent; try assumption.
  intros k Hk. apply Hcur. lia.
Qed.

(** [set_status] stores a rate that the dictionary supplies as it is, and
    leaves the mean of the Poisson device alone; the [calibrate] that
    follows computes the rate anew, from the parameters and the input
    current that [set_status] left, whatever rate was supplied. *)
Theorem calibrate_overrides_rate (d : Dictionary D) (n : cd_poisson_generator) :
  snd (Parameters_set d (P_ n)) = Returns tt ->
  let n' := fst (set_status d n) in
  rate_ (S_ n') = updateValue d "rate" (rate_ (S_ n)) /\
  poisson_dev_ (V_ n') = poisson_dev_ (V_ n) /\
  rate_ (S_ (state_of (calibrate resolution_ms n'))) =
  rate_of_current (fst (Parameters_set d (P_ n)))
    (updateValue d "I" (input_current_ (S_ n))).
Proof.
  intros Hok. cbv zeta.
  assert (Hn : fst (set_status d n) =
               {| P_ := fst (Parameters_set d (P_ n)); V_ := V_ n;
                  S_ := State_set d (fst (Parameters_set d (P_ n))) (S_ n);
                  B_ := B_ n; rng := rng n |})
    by (rewrite (set_status_state d n Hok); reflexivity).
  rewrite Hn, calibrate_state. split; [|split]; reflexivity.
Qed.

(** New parameters wait for a new current: after a [set_status] that
    supplies neither rate nor current, a step of [update] whose current
    equals the stored one keeps the rate and the Poisson mean of before,
    whatever the new parameters are. *)
Theorem new_parameters_wait (d : Dictionary D) (T lag : Z)
    (n : cd_poisson_generator) :
  snd (Parameters_set d (P_ n)) = Returns tt ->
  d !! "rate" = None -> d !! "I" = None ->
  (input_current_ (S_ n) ==? currents_ (B_ n) lag)%D = true ->
  let n' := fst (set_status d n) in
  let r := update_step resolution_ms T lag n' in
  P_ n' = fst (Parameters_set d (P_ n)) /\
  rate_ (S_ (state_of r)) = rate_ (S_ n) /\
  poisson_dev_ (V_ (state_of r)) = poisson_dev_ (V_ n) /\
  lambdas (log_of r) = [].
Proof.
  intros Hok Hrate HI Heq. cbv zeta.
  assert (Hn : fst (set_status d n) =
               {| P_ := fst (Parameters_set d (P_ n)); V_ := V_ n;
                  S_ := State_set d (fst (Parameters_set d (P_ n))) (S_ n);
                  B_ := B_ n; rng := rng n |})
    by (rewrite (set_status_state d n Hok); reflexivity).
  rewrite Hn. clear Hn.
  set (n' := {| P_ := _ |}).
  assert (HS : S_ n' = S_ n).
  { unfold n', State_set, updateValue. simpl. rewrite Hrate, HI.
    destruct (S_ n); reflexivity. }
  assert (HB : B_ n' = B_ n) by reflexivity.
  assert (HV : V_ n' = V_ n) by reflexivity.
  assert (HP : P_ n' = fst (Parameters_set d (P_ n))) by reflexivity.
  clearbody n'.
  destruct (update_step_frame resolution_ms T lag n') as (_ & HS' & HV' & _).
  cbv zeta in HS', HV'.
  pose proof (update_step_eq resolution_ms T lag n') as E. cbv zeta in E.
  assert (HA : after_rate resolution_ms lag n' =
               with_B {| currents_ := snd (get_value lag (currents_ (B_ n')));
                         step_ := step_ (B_ n') |} n').
  { unfold after_rate. cbv zeta. rewrite HS, HB, Heq. reflexivity. }
  split; [exact HP|]. split; [|split].
  - rewrite HS', HA. simpl. rewrite HS. reflexivity.
  - rewrite HV', HA. simpl. rewrite HV. reflexivity.
  - rewrite E. unfold log_of. simpl. rewrite HS, HB, Heq. simpl.
    rewrite !lambdas_app. simpl.
    destruct (dlit 0 <? _)%D; simpl; [|reflexivity].
    destruct (_ >? 0); reflexivity.
Qed.

End LinearProperties.

(** ** The Gaussian variant over slices *)

Section RbfProperties.
Import rbf_poisson_generator.
Context {D : Type} {arith : Double D} {libm : StdExp D} {random : RandomDev D}.
Variable resolution_ms : D.

(** The Gaussian variant draws for every target at every step: a slice of
    [to - from] steps of a node with [m] targets draws [(to - from) * m]
    deviates, none when it has no target, and hands spike events to targets
    of the node only. *)
Theorem rbf_draws_per_target (T from to : Z) (g : rbf_poisson_generator) :
  let r := update resolution_ms T from to g in
  length (draws (log_of r)) = (Z.to_nat (to - from) * length (targets g))%nat /\
  Forall (fun h => In (fst (fst h)) (targets g)) (handled (log_of r)) /\
  targets (state_of r) = targets g.
Proof.
  cbv zeta.
  pose proof (rbf_update_eq resolution_ms T from to g) as E. cbv zeta in E.
  destruct (rbf_loop_more T (Z.to_nat (to - from)) from (dlit 0) g)
    as (_ & _ & _ & HL & HH).
  destruct (rbf_loop_spec T (Z.to_nat (to - from)) from (dlit 0) g)
    as (_ & (_ & _ & _ & HT) & _).
  fold (for_lags from to (update_step T) (dlit 0) g) in HL, HH, HT.
  set (loop := for_lags from to (update_step T) (dlit 0) g) in *.
  assert (EL : exists lam, log_of (update resolution_ms T from to g) =
                           log_of loop ++ [SetLambda lam])
    by (rewrite E; eexists; reflexivity).
  assert (ET : targets (state_of (update resolution_ms T from to g)) =
               targets (state_of loop)) by (rewrite E; reflexivity).
  destruct EL as [lam ->]. rewrite ET.
  rewrite draws_app, handled_app, length_app, HL. simpl.
  split; [lia|]. split; [|exact HT].
  rewrite app_nil_r. exact HH.
Qed.

(** The Gaussian variant answers one slice late.  [update] leaves the
    Poisson device the mean [resolution * rate * 1e-3] of the rate it
    stores; the deviates of a slice are drawn for the mean on entry; so the
    deviates of the slice after are drawn for the rate of the average
    current of this slice. *)
Theorem rbf_one_slice_delay (T from to T' from' to' : Z) (g : rbf_poisson_generator) :
  let r := update resolution_ms T from to g in
  let rate := rate_of_average (P_ g)
                (slice_sum (currents_ (B_ g)) from to / dfloat (to - from))%D in
  poisson_dev_ (V_ (state_of r)) = (resolution_ms * rate * dmilli)%D /\
  Forall (fun d => fst d = poisson_dev_ (V_ g)) (draws (log_of r)) /\
  Forall (fun d => fst d = (resolution_ms * rate * dmilli)%D)
    (draws (log_of (update resolution_ms T' from' to' (state_of r)))).
Proof.
  cbv zeta.
  assert (HV : forall T from to g,
             poisson_dev_ (V_ (state_of (update resolution_ms T from to g))) =
             (resolution_ms * rate_ (S_ (state_of (update resolution_ms T from to g)))
              * dmilli)%D).
  { intros T0 f0 t0 g0.
    pose proof (rbf_update_eq resolution_ms T0 f0 t0 g0) as E. cbv zeta in E.
    rewrite E. reflexivity. }
  assert (HD : forall T from to g,
             Forall (fun d => fst d = poisson_dev_ (V_ g))
               (draws (log_of (update resolution_ms T from to g)))).
  { intros T0 f0 t0 g0.
    destruct (rbf_update_log resolution_ms T0 f0 t0 g0) as (l & -> & (_ & HF & _) & _).
    rewrite draws_app. simpl. rewrite app_nil_r. exact HF. }
  split; [|split].
  - rewrite HV, rbf_update_rate. reflexivity.
  - apply HD.
  - rewrite <- (rbf_update_rate resolution_ms T from to g), <- HV. apply HD.
Qed.

(** [Parameters_::set] on what [Parameters_::get] wrote leaves the
    parameters as they are, and throws exactly when they fail the check;
    [State_::set] on what [State_::get] wrote leaves the state as it is. *)
Theorem rbf_status_round_trip (p : Parameters_) (s : State_) (d : Dictionary D) :
  Parameters_set (Parameters_get p d) p =
  (p, if (min_rate_rbf_ p <? dlit 0)%D || (max_rate_rbf_ p <? dlit 0)%D
         || (min_rate_rbf_ p >? max_rate_rbf_ p)%D
      then Throws bad_rates else Returns tt) /\
  State_set (State_get s d) p s = s.
Proof.
  split.
  - unfold Parameters_set, Parameters_get, updateValue, def.
    assert (H1 : <["sigma_current":=sigma_current_rbf_ p]>
                   (<["mean_current":=mean_current_rbf_ p]>
                      (<["max_rate":=max_rate_rbf_ p]>
                         (<["min_rate":=min_rate_rbf_ p]> d))) !! "min_rate"
                 = Some (min_rate_rbf_ p)) by (by simplify_map_eq).
    assert (H2 : <["sigma_current":=sigma_current_rbf_ p]>
                   (<["mean_current":=mean_current_rbf_ p]>
                      (<["max_rate":=max_rate_rbf_ p]>
                         (<["min_rate":=min_rate_rbf_ p]> d))) !! "max_rate"
                 = Some (max_rate_rbf_ p)) by (by simplify_map_eq).
    assert (H3 : <["sigma_current":=sigma_current_rbf_ p]>
                   (<["mean_current":=mean_current_rbf_ p]>
                      (<["max_rate":=max_rate_rbf_ p]>
                         (<["min_rate":=min_rate_rbf_ p]> d))) !! "mean_current"
                 = Some (mean_current_rbf_ p)) by (by simplify_map_eq).
    assert (H4 : <["sigma_current":=sigma_current_rbf_ p]>
                   (<["mean_current":=mean_current_rbf_ p]>
                      (<["max_rate":=max_rate_rbf_ p]>
                         (<["min_rate":=min_rate_rbf_ p]> d))) !! "sigma_current"
                 = Some (sigma_current_rbf_ p)) by (by simplify_map_eq).
    cbv zeta. rewrite H1, H2, H3, H4. simpl.
    destruct p as [a b c e]; simpl. destruct (_ || _); reflexivity.
  - unfold State_set, State_get, updateValue, def.
    assert (H : <["rate":=rate_ s]> d !! "rate" = Some (rate_ s))
      by (by simplify_map_eq).
    rewrite H. destruct s; reflexivity.
Qed.

End RbfProperties.

(** ** From the prototype to the first slice *)

Section Startup.
Context {D : Type} {arith : Double D} {libm : StdExp D} {random : RandomDev D}.
Variable resolution_ms : D.

(** A node that starts from a prototype ([init_state_], [init_buffers_],
    [calibrate]).  The linear variant starts consistent, with the rate of
    the prototype's input current under its own parameters: the prototype's
    rate is not used.  The Gaussian variant starts with the prototype's
    rate, whatever the parameters, and draws every deviate of its first
    slice for the mean of that rate. *)
Theorem startup_rates (T from to : Z)
    (proto n : cd_poisson_generator.cd_poisson_generator)
    (proto' g : rbf_poisson_generator.rbf_poisson_generator) :
  (let n0 := state_of (cd_poisson_generator.calibrate resolution_ms
                         (cd_poisson_generator.init_buffers_ resolution_ms
                            (cd_poisson_generator.init_state_ proto n))) in
   consistent resolution_ms n0 /\
   cd_poisson_generator.rate_ (cd_poisson_generator.S_ n0) =
   cd_poisson_generator.rate_of_current (cd_poisson_generator.P_ n)
     (cd_poisson_generator.input_current_ (cd_poisson_generator.S_ proto))) /\
  (let g0 := state_of (rbf_poisson_generator.calibrate resolution_ms
                         (rbf_poisson_generator.init_buffers_ resolution_ms
                            (rbf_poisson_generator.init_state_ proto' g))) in
   rbf_poisson_generator.rate_ (rbf_poisson_generator.S_ g0) =
   rbf_poisson_generator.rate_ (rbf_poisson_generator.S_ proto') /\
   Forall (fun d => fst d =
                    (resolution_ms
                     * rbf_poisson_generator.rate_ (rbf_poisson_generator.S_ proto')
                     * dmilli)%D)
     (draws (log_of (rbf_poisson_generator.update resolution_ms T from to g0)))).
Proof.
  split; cbv zeta.
  - split; [apply calibrate_consistent | reflexivity].
  - split; [reflexivity|].
    destruct (rbf_update_log resolution_ms T from to
                (state_of (rbf_poisson_generator.calibrate resolution_ms
                   (rbf_poisson_generator.init_buffers_ resolution_ms
                      (rbf_poisson_generator.init_state_ proto' g)))))
      as (l & -> & (_ & HF & _) & _).
    rewrite draws_app. simpl. rewrite app_nil_r. exact HF.
Qed.

End Startup.

(** ** [(float)(to - from)] in binary64 *)

Section Narrowing.

Lemma digits_iter (m q : positive) :
  digits2_pos (Pos.iter xO m q) = (digits2_pos m + q)%positive.
Proof.
  induction q as [|q IH] using Pos.peano_ind.
  - simpl. lia.
  - rewrite Pos.iter_succ. simpl. rewrite IH. lia.
Qed.

Lemma digits2_bounds (m : positive) :
  2 ^ (Zpos (digits2_pos m) - 1) <= Zpos m < 2 ^ Zpos (digits2_pos m).
Proof.
  induction m as [m IH|m IH|]; simpl digits2_pos.
  - rewrite Pos2Z.inj_succ.
    replace (Z.succ (Zpos (digits2_pos m)) - 1)
      with (Z.succ (Zpos (digits2_pos m) - 1)) by lia.
    rewrite !Z.pow_succ_r by lia. lia.
  - rewrite Pos2Z.inj_succ.
    replace (Z.succ (Zpos (digits2_pos m)) - 1)
      with (Z.succ (Zpos (digits2_pos m) - 1)) by lia.
    rewrite !Z.pow_succ_r by lia. lia.
  - simpl. lia.
Qed.

(** Rounding to [p] digits leaves a mantissa of [p] digits alone, when the
    exponent is in range. *)
Lemma binary_round_canonical (p emx : Z) (m : positive) (e : Z) :
  Zpos (digits2_pos m) = p -> 3 - emx - p <= e <= emx - p ->
  binary_round p emx false m e = S754_finite false m e.
Proof.
  intros Hd He.
  unfold binary_round, shl_align, binary_round_aux, shr_fexp.
  change IntDef.Z.add with Z.add. change IntDef.Z.sub with Z.sub.
  change IntDef.Z.leb with Z.leb.
  assert (F : fexp p emx (Zpos (digits2_pos m) + e) = e)
    by (unfold fexp, emin; lia).
  rewrite F, Z.sub_diag.
  change (Zdigits2 (Zpos m)) with (Zpos (digits2_pos m)).
  rewrite F, Z.sub_diag.
  cbv beta iota zeta delta [shr shr_record_of_loc round_nearest_even shr_m
                              loc_of_shr_record Zdigits2].
  rewrite F, Z.sub_diag.
  cbv beta iota zeta delta [shr shr_m].
  destruct (Z.leb_spec e (emx - p)); [reflexivity | lia].
Qed.

(** Rounding to [p] digits shifts a shorter mantissa to [p] digits. *)
Lemma binary_round_short (p emx : Z) (m q : positive) (e : Z) :
  Zpos (digits2_pos m) + Zpos q = p -> 3 - emx - p <= e - Zpos q <= emx - p ->
  binary_round p emx false m e = S754_finite false (Pos.iter xO m q) (e - Zpos q).
Proof.
  intros Hd He.
  unfold binary_round, shl_align, binary_round_aux, shr_fexp.
  change IntDef.Z.add with Z.add. change IntDef.Z.sub with Z.sub.
  change IntDef.Z.leb with Z.leb.
  assert (F : fexp p emx (Zpos (digits2_pos m) + e) = e - Zpos q)
    by (unfold fexp, emin; lia).
  rewrite F.
  replace (e - Zpos q - e) with (Zneg q) by lia.
  assert (F' : fexp p emx (Zpos (digits2_pos (Pos.iter xO m q)) + (e - Zpos q))
               = e - Zpos q)
    by (rewrite digits_iter; unfold fexp, emin; lia).
  change (Zdigits2 (Zpos (Pos.iter xO m q)))
    with (Zpos (digits2_pos (Pos.iter xO m q))).
  rewrite F', Z.sub_diag.
  cbv beta iota zeta delta [shr shr_record_of_loc round_nearest_even shr_m
                              loc_of_shr_record Zdigits2].
  rewrite F', Z.sub_diag.
  cbv beta iota zeta delta [shr shr_m].
  destruct (Z.leb_spec (e - Zpos q) (emx - p)); [reflexivity | lia].
Qed.

(** The double that [SF2Prim] makes of a mantissa and an exponent. *)
Lemma Prim2SF_SF2Prim_finite (m : positive) (e : Z) :
  Zpos m < 2 ^ 63 ->
  Prim2SF (SF2Prim (S754_finite false m e)) =
  SFldexp prec emax (binary_normalize prec emax (Zpos m) 0 false) e.
Proof.
  intros Hm. unfold SF2Prim.
  rewrite FloatLemmas.Z_ldexp_spec, of_uint63_spec, Uint63.of_Z_spec.
  rewrite Z.mod_small; [reflexivity|].
  change Uint63.wB with (2 ^ 63). lia.
Qed.

Lemma Prim2SF_short (m q : positive) (e : Z) :
  Zpos (digits2_pos m) + Zpos q = 53 -> -1074 <= e - Zpos q <= 971 ->
  Prim2SF (SF2Prim (S754_finite false m e)) =
  S754_finite false (Pos.iter xO m q) (e - Zpos q).
Proof.
  intros Hd He.
  pose proof (digits2_bounds m) as [_ Hm].
  assert (2 ^ Zpos (digits2_pos m) <= 2 ^ 63) by (apply Z.pow_le_mono_r; lia).
  rewrite Prim2SF_SF2Prim_finite by lia.
  unfold binary_normalize.
  rewrite (binary_round_short prec emax m q 0)
    by (change prec with 53; change emax with 1024; lia).
  unfold SFldexp.
  rewrite binary_round_canonical.
  - f_equal. lia.
  - rewrite digits_iter. change prec with 53. lia.
  - change prec with 53; change emax with 1024. lia.
Qed.

Lemma Prim2SF_full (m : positive) (e : Z) :
  Zpos (digits2_pos m) = 53 -> -1074 <= e <= 971 ->
  Prim2SF (SF2Prim (S754_finite false m e)) = S754_finite false m e.
Proof.
  intros Hd He.
  pose proof (digits2_bounds m) as [_ Hm].
  assert (2 ^ Zpos (digits2_pos m) <= 2 ^ 63) by (apply Z.pow_le_mono_r; lia).
  rewrite Prim2SF_SF2Prim_finite by lia.
  unfold binary_normalize.
  rewrite (binary_round_canonical prec emax m 0)
    by (change prec with 53; change emax with 1024; lia).
  unfold SFldexp.
  rewrite binary_round_canonical.
  - reflexivity.
  - exact Hd.
  - change prec with 53; change emax with 1024. lia.
Qed.

(** A positive integer below [2^24] is the same double whether it is
    converted at once or by way of single precision. *)
Lemma of_long_float32_small (n : Z) :
  0 < n < 2 ^ 24 -> B64.of_long_float32 n = B64.of_long n.
Proof.
  intros Hn. destruct n as [|m|m]; try lia.
  pose proof (digits2_bounds m) as [Hlo _].
  assert (Hd : Zpos (digits2_pos m) <= 24).
  { destruct (Z_le_gt_dec (Zpos (digits2_pos m)) 24) as [|G]; [assumption|].
    assert (2 ^ 24 <= 2 ^ (Zpos (digits2_pos m) - 1))
      by (apply Z.pow_le_mono_r; lia).
    lia. }
  apply Prim2SF_inj. unfold B64.of_long, B64.of_long_float32, binary_normalize.
  set (q53 := Z.to_pos (53 - Zpos (digits2_pos m))).
  assert (Hq53 : Zpos q53 = 53 - Zpos (digits2_pos m)) by (unfold q53; lia).
  rewrite (binary_round_short prec emax m q53 0)
    by (change prec with 53; change emax with 1024; lia).
  rewrite Prim2SF_full; [| rewrite digits_iter; lia | lia].
  destruct (Z.eq_dec (Zpos (digits2_pos m)) 24) as [E|NE].
  - rewrite (binary_round_canonical 24 128 m 0) by lia.
    rewrite (Prim2SF_short m 29 0) by lia.
    replace q53 with 29%positive by lia. reflexivity.
  - set (q24 := Z.to_pos (24 - Zpos (digits2_pos m))).
    assert (Hq24 : Zpos q24 = 24 - Zpos (digits2_pos m)) by (unfold q24; lia).
    rewrite (binary_round_short 24 128 m q24 0) by lia.
    rewrite (Prim2SF_short (Pos.iter xO m q24) 29 (0 - Zpos q24))
      by (rewrite ?digits_iter; lia).
    replace q53 with (29 + q24)%positive by lia.
    rewrite Pos.iter_add. f_equal. lia.
Qed.

(** In binary64 the divisor [(float)(to - from)] of the Gaussian variant is
    the number of steps itself for slices of up to [2^24] steps, and the
    rate of the slice is that of the sum of its currents over the number of
    steps; from [2^24 + 1] steps on the conversion to single precision
    rounds. *)
Theorem binary64_step_count (libm : StdExp float) (random : RandomDev float)
    (resolution_ms : float) (T from to : Z)
    (g : rbf_poisson_generator.rbf_poisson_generator) :
  0 < to - from <= 2 ^ 24 ->
  (dfloat (to - from) : float) = dlit (to - from) /\
  rbf_poisson_generator.rate_
    (rbf_poisson_generator.S_
       (state_of (rbf_poisson_generator.update resolution_ms T from to g))) =
  rbf_poisson_generator.rate_of_average (rbf_poisson_generator.P_ g)
    (slice_sum (rbf_poisson_generator.currents_ (rbf_poisson_generator.B_ g))
       from to / dlit (to - from))%D /\
  (dfloat (2 ^ 24 + 1) : float) = dlit (2 ^ 24).
Proof.
  intros H.
  assert (E : B64.of_long_float32 (to - from) = B64.of_long (to - from)).
  { destruct (Z.eq_dec (to - from) (2 ^ 24)) as [->|NE].
    - vm_compute. reflexivity.
    - apply of_long_float32_small. lia. }
  split; [exact E|]. split.
  - rewrite rbf_update_rate. simpl dfloat. simpl dlit. rewrite E. reflexivity.
  - vm_compute. reflexivity.
Qed.

End Narrowing.

(** ** Further runs *)

Section FurtherRuns.
Import cd_poisson_generator Examples.

(** After [set_status] with the rates 2 and 20, [get_status] reports the
    [min_rate] 2. *)
Lemma get_status_of_set_status_witness :
  get_status (fst (set_status doubled_rates (node Parameters_default 0%float clear [])))
    ∅ !! "min_rate" = Some 2%float.
Proof.
  rewrite (get_status_of_set_status doubled_rates ∅
             (node Parameters_default 0%float clear []) "min_rate").
  - vm_compute. reflexivity.
  - vm_compute. reflexivity.
  - simpl. left. reflexivity.
Defined.

(** A calibrated node stays consistent over a slice of three steps. *)
Lemma update_keeps_consistent_witness :
  let n := state_of (calibrate resolution
                       (node overlapping 0.5%float (pulse 0.5%float) [1; 2])) in
  consistent resolution n /\
  consistent resolution (state_of (update resolution 0 0 3 n)).
Proof.
  intros n.
  assert (HC : consistent resolution n) by (split; vm_compute; reflexivity).
  split; [exact HC|].
  destruct (update_keeps_consistent resolution 0 0 3 n HC) as [H _]. exact H.
Defined.

(** Under [min_rate = 0], a slice whose currents are -1, 0 and 0 draws
    nothing and leaves the deviates 3 and 1 to come. *)
Lemma silent_slice_witness :
  draws (log_of (update resolution 0 0 3 quiet_node)) = [] /\
  spikes (log_of (update resolution 0 0 3 quiet_node)) = [] /\
  rng (state_of (update resolution 0 0 3 quiet_node)) = [3; 1].
Proof.
  assert (H1 : (min_rate_ (P_ quiet_node) >? dlit 0)%D = false)
    by (vm_compute; reflexivity).
  assert (H2 : (rate_ (S_ quiet_node) >? dlit 0)%D = false)
    by (vm_compute; reflexivity).
  assert (H3 : forall k, 0 <= k < 3 ->
                 (currents_ (B_ quiet_node) k <=? min_current_ (P_ quiet_node))%D = true).
  { intros k _. simpl. unfold pulse. destruct (k =? 0); vm_compute; reflexivity. }
  destruct (silent_slice resolution 0 0 3 quiet_node H1 H2 H3) as (HD & HS & HR & _).
  split; [exact HD|]. split; [exact HS | exact HR].
Defined.

(** A [set_status] with [rate = 7] stores the rate 7; the [calibrate] that
    follows stores the rate 1 of the input current 0. *)
Lemma calibrate_overrides_rate_witness :
  let n := node Parameters_default 0%float clear [] in
  rate_ (S_ (fst (set_status forced_rate n))) = 7%float /\
  rate_ (S_ (state_of (calibrate resolution (fst (set_status forced_rate n))))) =
  1%float.
Proof.
  intros n.
  assert (H : snd (Parameters_set forced_rate (P_ n)) = Returns tt)
    by (vm_compute; reflexivity).
  destruct (calibrate_overrides_rate resolution forced_rate n H) as (H1 & _ & H3).
  split.
  - rewrite H1. vm_compute. reflexivity.
  - rewrite H3. vm_compute. reflexivity.
Defined.

(** After a [set_status] with the rates 2 and 20, a step with the old
    current 0 keeps the rate 5 under the [min_rate] 2. *)
Lemma new_parameters_wait_witness :
  let n := node Parameters_default 0%float clear [1] in
  min_rate_ (P_ (fst (set_status doubled_rates n))) = 2%float /\
  rate_ (S_ (state_of (update_step resolution 0 0 (fst (set_status doubled_rates n))))) =
  5%float.
Proof.
  intros n.
  assert (H1 : snd (Parameters_set doubled_rates (P_ n)) = Returns tt)
    by (vm_compute; reflexivity).
  assert (H2 : doubled_rates !! "rate" = None) by (vm_compute; reflexivity).
  assert (H3 : doubled_rates !! "I" = None) by (vm_compute; reflexivity).
  assert (H4 : (input_current_ (S_ n) ==? currents_ (B_ n) 0)%D = true)
    by (vm_compute; reflexivity).
  destruct (new_parameters_wait resolution doubled_rates 0 0 n H1 H2 H3 H4)
    as (HP & HR & _).
  split.
  - rewrite HP. vm_compute. reflexivity.
  - rewrite HR. reflexivity.
Defined.

(** A slice of four steps in binary64: the divisor [(float)4] is the
    double 4, by either conversion. *)
Lemma binary64_step_count_witness :
  (dfloat (4 - 0) : float) = dlit (4 - 0) /\ (dfloat (4 - 0) : float) = 4%float.
Proof.
  assert (H : 0 < 4 - 0 <= 2 ^ 24) by lia.
  destruct (binary64_step_count {| dexp := fun x => x |} (scripted float)
              resolution 0 0 4
              (rbf_node rbf_poisson_generator.Parameters_default
                 5%float 0%float ramp64) H) as (HD & _ & _).
  split; [exact HD | vm_compute; reflexivity].
Defined.

End FurtherRuns.

(** ** More of binary64: zeros, NaN and equal doubles *)

Section Binary64Zeros.

(** A double that is not NaN compares equal to itself. *)
Lemma SFcompare_refl (x : spec_float) :
  x <> S754_nan -> SFcompare x x = Some Eq.
Proof.
  destruct x as [s|s| |s m e]; intros H; simpl.
  - reflexivity.
  - destruct s; reflexivity.
  - contradiction.
  - rewrite Z.compare_refl.
    change (Pos.compare_cont Eq m m) with (m ?= m)%positive.
    rewrite Pos.compare_refl. destruct s; reflexivity.
Qed.

(** There is one NaN. *)
Lemma is_nan_eq (x : float) : PrimFloat.is_nan x = true -> x = nan.
Proof.
  unfold PrimFloat.is_nan. rewrite FloatAxioms.eqb_spec. intros H.
  apply Prim2SF_inj. change (Prim2SF nan) with S754_nan.
  destruct (Prim2SF x) as [s|s| |s m e] eqn:E; try reflexivity;
    unfold SFeqb in H; rewrite SFcompare_refl in H by discriminate;
    discriminate.
Qed.

Lemma is_number (x : float) : PrimFloat.is_nan x = false -> Prim2SF x <> S754_nan.
Proof.
  unfold PrimFloat.is_nan. rewrite FloatAxioms.eqb_spec. intros H E.
  rewrite E in H. discriminate.
Qed.


(** The zeros are the doubles that compare equal to 0. *)
Lemma eqb_zero (x : float) :
  PrimFloat.eqb x 0 = true <-> exists s, Prim2SF x = S754_zero s.
Proof.
  rewrite FloatAxioms.eqb_spec. change (Prim2SF 0) with (S754_zero false).
  split.
  - destruct (Prim2SF x) as [s|s| |s m e]; try discriminate.
    + intros _. exists s. reflexivity.
    + destruct s; discriminate.
    + destruct s; discriminate.
  - intros [s ->]. reflexivity.
Qed.

Lemma mul_zeros (x y : float) :
  PrimFloat.eqb x 0 = true -> PrimFloat.eqb y 0 = true ->
  PrimFloat.eqb (x * y) 0 = true.
Proof.
  rewrite !eqb_zero. intros [sx Hx] [sy Hy].
  exists (xorb sx sy). rewrite mul_spec, Hx, Hy. reflexivity.
Qed.

Lemma opp_zero (x : float) :
  PrimFloat.eqb x 0 = true -> PrimFloat.eqb (- x) 0 = true.
Proof.
  rewrite !eqb_zero. intros [sx Hx].
  exists (negb sx). rewrite opp_spec, Hx. reflexivity.
Qed.

(** A zero over a double that is neither NaN nor a zero is a zero. *)
Lemma div_zero (x y : float) :
  PrimFloat.eqb x 0 = true -> PrimFloat.is_nan y = false ->
  PrimFloat.eqb y 0 = false -> PrimFloat.eqb (x / y) 0 = true.
Proof.
  intros Hx Hn Hy. apply is_number in Hn.
  assert (Hz : forall s, Prim2SF y <> S754_zero s).
  { intros s E. assert (PrimFloat.eqb y 0 = true) by (apply eqb_zero; eauto).
    congruence. }
  apply eqb_zero in Hx as [sx Hx]. apply eqb_zero.
  rewrite div_spec, Hx.
  destruct (Prim2SF y) as [s|s| |s m e]; simpl.
  - exfalso. apply (Hz s). reflexivity.
  - eauto.
  - contradiction.
  - eauto.
Qed.

(** Doubles that compare equal are the same double, or two zeros. *)
Lemma eqb_cases (x y : float) :
  PrimFloat.eqb x y = true ->
  x = y \/ (PrimFloat.eqb x 0 = true /\ PrimFloat.eqb y 0 = true).
Proof.
  intros H. pose proof H as H'. rewrite FloatAxioms.eqb_spec in H'.
  destruct (Prim2SF x) as [sx|sx| |sx mx ex] eqn:Ex;
    destruct (Prim2SF y) as [sy|sy| |sy my ey] eqn:Ey;
    try (unfold SFeqb in H'; simpl in H'; discriminate);
    try (unfold SFeqb in H'; simpl in H'; destruct sx; discriminate);
    try (unfold SFeqb in H'; simpl in H'; destruct sy; discriminate).
  - right. split; apply eqb_zero; eauto.
  - left. apply Prim2SF_inj. rewrite Ex, Ey.
    destruct sx, sy; (reflexivity || discriminate).
  - left. apply Prim2SF_inj. rewrite Ex, Ey.
    apply SFeqb_finite in H' as (-> & -> & ->). reflexivity.
Qed.

(** Doubles that compare equal compare alike with a third, on the right. *)
Lemma leb_of_equal_r (x y z : float) :
  PrimFloat.eqb x y = true -> PrimFloat.leb z x = PrimFloat.leb z y.
Proof.
  intros H. destruct (eqb_cases x y H) as [->|[Hx Hy]]; [reflexivity|].
  apply eqb_zero in Hx as [sx Hx]. apply eqb_zero in Hy as [sy Hy].
  rewrite !leb_spec, Hx, Hy. destruct (Prim2SF z); reflexivity.
Qed.

(** Doubles that compare equal have the same difference to a third that
    lies below them. *)
Lemma sub_of_equal_above (x y c : float) :
  PrimFloat.eqb x y = true -> PrimFloat.leb x c = false ->
  (x - c)%float = (y - c)%float.
Proof.
  intros H L. destruct (eqb_cases x y H) as [->|[Hx Hy]]; [reflexivity|].
  apply eqb_zero in Hx as [sx Hx]. apply eqb_zero in Hy as [sy Hy].
  apply Prim2SF_inj. rewrite !sub_spec, Hx, Hy.
  rewrite leb_spec, Hx in L.
  destruct (Prim2SF c) as [s|s| |s m e]; try reflexivity.
  discriminate.
Qed.

End Binary64Zeros.

(** ** The Gaussian contract, on doubles and on reals *)

Section GaussianCentre.
Import rbf_poisson_generator.

(** At the centre the argument of [std::exp] is a zero, when
    [mean_current] is finite and [2 * sigma * sigma] is a number other than
    zero. *)
Lemma gaussian_argument_centre (p : Parameters_ (D := float)) (avg : float) :
  PrimFloat.eqb avg (mean_current_rbf_ p) = true ->
  PrimFloat.is_infinity (mean_current_rbf_ p) = false ->
  PrimFloat.is_nan (dlit 2 * sigma_current_rbf_ p * sigma_current_rbf_ p)%D = false ->
  PrimFloat.eqb (dlit 2 * sigma_current_rbf_ p * sigma_current_rbf_ p)%D 0 = false ->
  PrimFloat.eqb (gaussian_argument p avg) 0 = true.
Proof.
  intros Heq Hfin Hnan Hnz. unfold gaussian_argument.
  apply div_zero; [|exact Hnan | exact Hnz].
  apply opp_zero, mul_zeros; apply sub_of_equal; assumption.
Qed.

End GaussianCentre.

(** C2, as amended.  On every interpretation of [double], the rate that
    [update] of the Gaussian variant stores at the end of a slice is the
    value of
    [min_rate + exp(-((avg - mean_current) * (avg - mean_current)) / (2 * sigma_current * sigma_current)) * (max_rate - min_rate)]
    at [avg], the sum of the slice over [(float)(to - from)], each operation
    being that of the interpretation.  On binary64, with an [exp] that is 1
    at the zeros, [mean_current] finite and [2 * sigma_current * sigma_current]
    a number other than zero, the Gaussian is exactly 1 at
    [avg == mean_current] and the rate is the double
    [min_rate + 1 * (max_rate - min_rate)].  In exact arithmetic with
    [sigma_current] not zero the rate is
    [min_rate + exp(-(avg - mean_current)^2 / (2 sigma_current^2)) * (max_rate - min_rate)],
    and [max_rate] at [avg = mean_current]. *)
Theorem C2_gaussian_rate_contract :
  (forall (D : Type) (arith : Double D) (libm : StdExp D) (random : RandomDev D)
          (resolution_ms : D) (T from to : Z)
          (g : rbf_poisson_generator.rbf_poisson_generator),
     let p := rbf_poisson_generator.P_ g in
     let avg := (slice_sum (rbf_poisson_generator.currents_
                              (rbf_poisson_generator.B_ g)) from to
                 / dfloat (to - from))%D in
     rbf_poisson_generator.rate_
       (rbf_poisson_generator.S_
          (state_of (rbf_poisson_generator.update resolution_ms T from to g))) =
     (rbf_poisson_generator.min_rate_rbf_ p
      + dexp (- ((avg - rbf_poisson_generator.mean_current_rbf_ p)
                 * (avg - rbf_poisson_generator.mean_current_rbf_ p))
              / (dlit 2 * rbf_poisson_generator.sigma_current_rbf_ p
                 * rbf_poisson_generator.sigma_current_rbf_ p))
        * (rbf_poisson_generator.max_rate_rbf_ p
           - rbf_poisson_generator.min_rate_rbf_ p))%D) /\
  (forall (libm : StdExp float)
          (p : rbf_poisson_generator.Parameters_ (D := float)) (avg : float),
     (forall x : float, PrimFloat.eqb x 0 = true -> dexp x = 1%float) ->
     PrimFloat.eqb avg (rbf_poisson_generator.mean_current_rbf_ p) = true ->
     PrimFloat.is_infinity (rbf_poisson_generator.mean_current_rbf_ p) = false ->
     PrimFloat.is_nan (dlit 2 * rbf_poisson_generator.sigma_current_rbf_ p
                       * rbf_poisson_generator.sigma_current_rbf_ p)%D = false ->
     PrimFloat.eqb (dlit 2 * rbf_poisson_generator.sigma_current_rbf_ p
                    * rbf_poisson_generator.sigma_current_rbf_ p)%D 0 = false ->
     dexp (rbf_poisson_generator.gaussian_argument p avg) = 1%float /\
     rbf_poisson_generator.rate_of_average p avg =
     (rbf_poisson_generator.min_rate_rbf_ p
      + 1 * (rbf_poisson_generator.max_rate_rbf_ p
             - rbf_poisson_generator.min_rate_rbf_ p))%float) /\
  (forall (p : rbf_poisson_generator.Parameters_ (D := R)) (avg : R),
     rbf_poisson_generator.sigma_current_rbf_ p <> 0%R ->
     rbf_poisson_generator.rate_of_average p avg =
     (rbf_poisson_generator.min_rate_rbf_ p
      + exp (- (avg - rbf_poisson_generator.mean_current_rbf_ p) ^ 2
             / (2 * rbf_poisson_generator.sigma_current_rbf_ p ^ 2))
        * (rbf_poisson_generator.max_rate_rbf_ p
           - rbf_poisson_generator.min_rate_rbf_ p))%R /\
     (avg = rbf_poisson_generator.mean_current_rbf_ p ->
      rbf_poisson_generator.rate_of_average p avg =
      rbf_poisson_generator.max_rate_rbf_ p)).
Proof.
  split; [|split].
  - intros D arith libm random resolution_ms T from to g p avg.
    rewrite rbf_update_rate. reflexivity.
  - intros libm p avg Hexp Heq Hfin Hnan Hnz.
    assert (E : dexp (rbf_poisson_generator.gaussian_argument p avg) = 1%float)
      by (apply Hexp, gaussian_argument_centre; assumption).
    split; [exact E|].
    unfold rbf_poisson_generator.rate_of_average. cbv zeta. rewrite E. reflexivity.
  - intros p avg Hs. split.
    + apply rate_of_average_exact.
    + intros ->. apply rate_of_average_centre.
Qed.

(** C4, as amended.  Over a slice [[from, to)] with [from < to], on every
    interpretation of [double], [update] of the Gaussian variant takes the
    value of each slot of the slice out of the ring buffer, once and in
    order, and leaves the state's rate alone while it does; it then stores
    the rate of one average, the sum of those values (added in that order to
    [0.0]) over [(float)(to - from)], and gives the Poisson device one mean:
    one rate and one mean per slice.  On binary64 the divisor
    [(float)(to - from)] is the number of steps for slices of up to [2^24]
    steps; in exact arithmetic it is the number of steps. *)
Theorem C4_slice_averaging :
  (forall (D : Type) (arith : Double D) (libm : StdExp D) (random : RandomDev D)
          (resolution_ms : D) (T from to : Z)
          (g : rbf_poisson_generator.rbf_poisson_generator),
     from < to ->
     let b := rbf_poisson_generator.currents_ (rbf_poisson_generator.B_ g) in
     let average := (fold_left dadd (map snd (slice b from to)) (dlit 0)
                     / dfloat (to - from))%D in
     let r := rbf_poisson_generator.update resolution_ms T from to g in
     drained (log_of r) = slice b from to /\
     length (slice b from to) = Z.to_nat (to - from) /\
     (0 < length (slice b from to))%nat /\
     rbf_poisson_generator.S_
       (state_of (for_lags from to (rbf_poisson_generator.update_step T) (dlit 0) g)) =
     rbf_poisson_generator.S_ g /\
     rbf_poisson_generator.rate_ (rbf_poisson_generator.S_ (state_of r)) =
     rbf_poisson_generator.rate_of_average (rbf_poisson_generator.P_ g) average /\
     lambdas (log_of r) =
     [(resolution_ms
       * rbf_poisson_generator.rate_of_average (rbf_poisson_generator.P_ g) average
       * dmilli)%D]) /\
  (forall (libm : StdExp float) (random : RandomDev float) (resolution_ms : float)
          (T from to : Z) (g : rbf_poisson_generator.rbf_poisson_generator),
     0 < to - from <= 2 ^ 24 ->
     (dfloat (to - from) : float) = dlit (to - from) /\
     rbf_poisson_generator.rate_
       (rbf_poisson_generator.S_
          (state_of (rbf_poisson_generator.update resolution_ms T from to g))) =
     rbf_poisson_generator.rate_of_average (rbf_poisson_generator.P_ g)
       (slice_sum (rbf_poisson_generator.currents_ (rbf_poisson_generator.B_ g))
          from to / dlit (to - from))%D) /\
  (forall (random : RandomDev R) (resolution_ms : R) (T from to : Z)
          (g : rbf_poisson_generator.rbf_poisson_generator),
     rbf_poisson_generator.rate_
       (rbf_poisson_generator.S_
          (state_of (rbf_poisson_generator.update resolution_ms T from to g))) =
     rbf_poisson_generator.rate_of_average (rbf_poisson_generator.P_ g)
       (slice_sum (rbf_poisson_generator.currents_ (rbf_poisson_generator.B_ g))
          from to / IZR (to - from))%R).
Proof.
  split; [|split].
  - intros D arith libm random resolution_ms T from to g Hlt b average r.
    destruct (rbf_update_log resolution_ms T from to g) as (l & E & (HL & _) & HD).
    destruct (rbf_loop_spec T (Z.to_nat (to - from)) from (dlit 0) g)
      as (_ & (_ & _ & HS & _) & _).
    pose proof (rbf_update_rate resolution_ms T from to g) as HR.
    fold r in E, HR.
    assert (HN : length (slice b from to) = Z.to_nat (to - from))
      by apply length_entries.
    split; [|split; [|split; [|split; [|split]]]].
    + rewrite E, drained_app, HD. apply app_nil_r.
    + exact HN.
    + rewrite HN. lia.
    + exact HS.
    + exact HR.
    + rewrite E, lambdas_app, HL, HR. reflexivity.
  - intros libm random resolution_ms T from to g H.
    assert (E : B64.of_long_float32 (to - from) = B64.of_long (to - from)).
    { destruct (Z.eq_dec (to - from) (2 ^ 24)) as [->|NE].
      - vm_compute. reflexivity.
      - apply of_long_float32_small. lia. }
    split; [exact E|].
    rewrite rbf_update_rate. simpl dfloat. simpl dlit. rewrite E. reflexivity.
  - intros random resolution_ms T from to g. rewrite rbf_update_rate. reflexivity.
Qed.

(** ** The linear map with [max_current == min_current], traced *)

Section EqualCurrents.
Import cd_poisson_generator.

(** Tracing changes no value: the traced linear map computes the rate that
    the map computes on the values. *)
Lemma rate_of_current_value {D : Type} {arith : Double D}
    (p : Parameters_ (D := Traced.T D)) (I : Traced.T D) :
  Traced.value (rate_of_current p I) = rate_of_current (untraced p) (Traced.value I).
Proof.
  unfold rate_of_current, untraced. simpl.
  unfold Traced.test.
  destruct (dleb (Traced.value I) (Traced.value (min_current_ p))); [reflexivity|].
  destruct (dleb (Traced.value (max_current_ p)) (Traced.value I)); reflexivity.
Qed.

(** The interpolation of the linear map performs the division of
    [I - min_current] by [max_current - min_current]. *)
Lemma interpolation_divides {D : Type} {arith : Double D}
    (p : Parameters_ (D := Traced.T D)) (I : Traced.T D) :
  In (Traced.value (I - min_current_ p)%D,
      Traced.value (max_current_ p - min_current_ p)%D)
    (Traced.divisions
       ((I - min_current_ p) / (max_current_ p - min_current_ p)
        * (max_rate_ p - min_rate_ p) + min_rate_ p)%D).
Proof.
  simpl. unfold Traced.divisions, Traced.lift2, Traced.div. simpl.
  rewrite !in_app_iff. simpl. auto 10.
Qed.

(** C9, on binary64, with the divisions traced.  Let a [Parameters_::set]
    result in a configuration whose rates are not negative and whose
    [max_current] equals its [min_current], a finite number.  Then the call
    returns; [max_current - min_current] is a zero; and for the input
    current NaN both saturation tests fail, so that the linear map
    computes its rate by the interpolation, among whose divisions is that of
    [I - min_current] by this zero.  A step of [update] that finds the
    current in the ring buffer stores this rate.  The traced rate is the
    rate of the untraced map. *)
Theorem C9_division_by_zero (d : Dictionary (Traced.T float))
    (q : Parameters_ (D := Traced.T float)) :
  let p := fst (Parameters_set d q) in
  (max_current_ p ==? min_current_ p)%D = true ->
  PrimFloat.is_infinity (Traced.value (min_current_ p)) = false ->
  (min_rate_ p <? dlit 0)%D = false ->
  (max_rate_ p <? dlit 0)%D = false ->
  snd (Parameters_set d q) = Returns tt /\
  PrimFloat.eqb (Traced.value (max_current_ p - min_current_ p)%D) 0 = true /\
  (exists I : Traced.T float,
     Traced.divisions I = [] /\
     In (Traced.value (I - min_current_ p)%D,
         Traced.value (max_current_ p - min_current_ p)%D)
       (Traced.divisions (rate_of_current p I))) /\
  (forall I : Traced.T float,
     PrimFloat.is_nan (Traced.value I) = true ->
     (I <=? min_current_ p)%D = false /\
     (I >=? max_current_ p)%D = false /\
     In (Traced.value (I - min_current_ p)%D,
         Traced.value (max_current_ p - min_current_ p)%D)
       (Traced.divisions (rate_of_current p I)) /\
     Traced.value (rate_of_current p I) =
     rate_of_current (untraced p) (Traced.value I) /\
     forall (random : RandomDev (Traced.T float)) (resolution_ms : Traced.T float)
            (T lag : Z) (n : cd_poisson_generator),
       P_ n = p -> currents_ (B_ n) lag = I ->
       rate_ (S_ (state_of (update_step resolution_ms T lag n))) =
       rate_of_current p I).
Proof.
  intros p Heq Hfin Hmin Hmax.
  assert (HN : forall I : Traced.T float,
             PrimFloat.is_nan (Traced.value I) = true ->
             (I <=? min_current_ p)%D = false /\
             (I >=? max_current_ p)%D = false /\
             In (Traced.value (I - min_current_ p)%D,
                 Traced.value (max_current_ p - min_current_ p)%D)
               (Traced.divisions (rate_of_current p I))).
  { intros I HI. apply is_nan_eq in HI.
    assert (H1 : (I <=? min_current_ p)%D = false).
    { change (PrimFloat.leb (Traced.value I) (Traced.value (min_current_ p)) = false).
      rewrite HI. apply nan_unordered. }
    assert (H2 : (I >=? max_current_ p)%D = false).
    { change (PrimFloat.leb (Traced.value (max_current_ p)) (Traced.value I) = false).
      rewrite HI. apply nan_unordered. }
    split; [exact H1|]. split; [exact H2|].
    unfold rate_of_current. rewrite H1, H2. apply interpolation_divides. }
  split; [|split; [|split]].
  - rewrite cd_Parameters_set_outcome. cbv zeta. fold p. rewrite Hmin, Hmax.
    reflexivity.
  - change (PrimFloat.eqb (Traced.value (max_current_ p)
                           - Traced.value (min_current_ p))%float 0 = true).
    apply sub_of_equal; assumption.
  - exists (Traced.pure nan). split; [reflexivity|].
    apply (HN (Traced.pure nan)). reflexivity.
  - intros I HI. destruct (HN I HI) as (H1 & H2 & H3).
    split; [exact H1|]. split; [exact H2|]. split; [exact H3|].
    split; [apply rate_of_current_value|].
    intros random resolution_ms T lag n HP HC.
    rewrite update_step_rate, HC, HP.
    change (input_current_ (S_ n) ==? I)%D
      with (PrimFloat.eqb (Traced.value (input_current_ (S_ n))) (Traced.value I)).
    apply is_nan_eq in HI. rewrite HI, nan_unequal. reflexivity.
Qed.

(** With [max_current == min_current], the linear map gives every input
    current that is a number the [min_rate] or the [max_rate] of its
    parameters as they are, traces included: it takes a saturation branch and
    performs no division. *)
Theorem equal_currents_saturate (p : Parameters_ (D := Traced.T float))
    (I : Traced.T float) :
  (max_current_ p ==? min_current_ p)%D = true ->
  PrimFloat.is_nan (Traced.value I) = false ->
  ((I <=? min_current_ p)%D = true /\ rate_of_current p I = min_rate_ p) \/
  ((I <=? min_current_ p)%D = false /\ (I >=? max_current_ p)%D = true /\
   rate_of_current p I = max_rate_ p).
Proof.
  intros Heq HI. unfold rate_of_current.
  change (I <=? min_current_ p)%D
    with (PrimFloat.leb (Traced.value I) (Traced.value (min_current_ p))).
  change (I >=? max_current_ p)%D
    with (PrimFloat.leb (Traced.value (max_current_ p)) (Traced.value I)).
  change (PrimFloat.eqb (Traced.value (max_current_ p))
            (Traced.value (min_current_ p)) = true) in Heq.
  rewrite (leb_of_equal _ _ (Traced.value I) Heq).
  assert (Hc : PrimFloat.is_nan (Traced.value (min_current_ p)) = false)
    by (apply (eqb_is_number (Traced.value (max_current_ p))); exact Heq).
  destruct (PrimFloat.leb (Traced.value I) (Traced.value (min_current_ p))) eqn:L.
  - left. split; reflexivity.
  - right. destruct (leb_total (Traced.value I) (Traced.value (min_current_ p)) HI Hc)
      as [L'|L']; [congruence|].
    rewrite L'. repeat split.
Qed.

End EqualCurrents.

(** ** The bounds of the rate *)

Section RateBounds.


End RateBounds.


(** ** The linear variant follows its input, on binary64 *)

Section FollowsCurrent.
Import cd_poisson_generator.
Context {random : RandomDev float}.
Variable resolution_ms : float.

(** Doubles that compare equal have the same rate: the two zeros take the
    same branch, and where they reach the interpolation [min_current] is
    not a zero, so that the differences agree. *)
Lemma rate_of_current_congr (p : Parameters_ (D := float)) (x y : float) :
  PrimFloat.eqb x y = true -> rate_of_current p x = rate_of_current p y.
Proof.
  intros H. unfold rate_of_current.
  change (x <=? min_current_ p)%D with (PrimFloat.leb x (min_current_ p)).
  change (y <=? min_current_ p)%D with (PrimFloat.leb y (min_current_ p)).
  change (x >=? max_current_ p)%D with (PrimFloat.leb (max_current_ p) x).
  change (y >=? max_current_ p)%D with (PrimFloat.leb (max_current_ p) y).
  rewrite (leb_of_equal_r x y (max_current_ p) H).
  destruct (PrimFloat.leb x (min_current_ p)) eqn:L;
    rewrite <- (leb_of_equal x y (min_current_ p) H), L; [reflexivity|].
  destruct (PrimFloat.leb (max_current_ p) y); [reflexivity|].
  change (x - min_current_ p)%D with (x - min_current_ p)%float.
  change (y - min_current_ p)%D with (y - min_current_ p)%float.
  rewrite (sub_of_equal_above x y (min_current_ p) H L). reflexivity.
Qed.

(** From a consistent state, a step leaves the rate of its current. *)
Lemma step_rate_of_current (T lag : Z) (n : cd_poisson_generator) :
  consistent resolution_ms n ->
  rate_ (S_ (state_of (update_step resolution_ms T lag n))) =
  rate_of_current (P_ n) (currents_ (B_ n) lag).
Proof.
  intros [HR _]. rewrite update_step_rate.
  destruct (input_current_ (S_ n) ==? currents_ (B_ n) lag)%D eqn:E; simpl;
    [|reflexivity].
  rewrite HR. apply rate_of_current_congr. exact E.
Qed.

(** From a consistent state, a loop of at least one step leaves the rate of
    the current of its last step. *)
Lemma loop_rate_of_current (T : Z) (cnt : nat) (lag : Z) (n : cd_poisson_generator) :
  consistent resolution_ms n ->
  rate_ (S_ (state_of (for_each_lag (S cnt) lag
                         (fun lag _ => update_step resolution_ms T lag) tt n))) =
  rate_of_current (P_ n) (currents_ (B_ n) (lag + Z.of_nat cnt)).
Proof.
  revert lag n. induction cnt as [|cnt IH]; intros lag n HC.
  - cbn [for_each_lag]. rewrite state_bind. unfold ret at 1, state_of at 1. simpl.
    change (Z.of_nat 0) with 0. rewrite Z.add_0_r.
    apply step_rate_of_current. exact HC.
  - change (for_each_lag (S (S cnt)) lag
              (fun lag _ => update_step resolution_ms T lag) tt n)
      with (bind (update_step resolution_ms T lag)
              (for_each_lag (S cnt) (lag + 1)
                 (fun lag _ => update_step resolution_ms T lag)) n).
    rewrite state_bind.
    destruct (update_step_frame resolution_ms T lag n) as (HP & _ & _ & HB & _).
    cbv zeta in HP, HB.
    pose proof (update_step_consistent resolution_ms T lag n HC) as HC1.
    set (n1 := state_of (update_step resolution_ms T lag n)) in *.
    destruct (fst (fst (update_step resolution_ms T lag n))).
    rewrite (IH (lag + 1) n1 HC1), HP, HB. simpl.
    replace (lag + 1 + Z.of_nat cnt) with (lag + Z.of_nat (S cnt)) by lia.
    destruct (lag + Z.of_nat (S cnt) =? lag) eqn:K;
      [apply Z.eqb_eq in K; lia | reflexivity].
Qed.

(** On binary64 the linear variant follows its input without delay.  From a
    consistent state, as [calibrate] leaves it, a deviate of a step is drawn
    for the mean [resolution * rate * 1e-3] of the rate of that step's
    current, and a slice leaves the rate of the current of its last step:
    also when the current is NaN, and when it is a zero of the other sign
    than the stored one. *)
Theorem rate_follows_current (T from to lag : Z) (n : cd_poisson_generator) :
  consistent resolution_ms n ->
  from < to ->
  Forall (fun d => fst d =
                   (resolution_ms * rate_of_current (P_ n) (currents_ (B_ n) lag)
                    * dmilli)%D)
    (draws (log_of (update_step resolution_ms T lag n))) /\
  rate_ (S_ (state_of (update resolution_ms T from to n))) =
  rate_of_current (P_ n) (currents_ (B_ n) (to - 1)).
Proof.
  intros HC Hlt. split.
  - pose proof (update_step_draws resolution_ms T lag n) as HD. cbv zeta in HD.
    rewrite HD. clear HD.
    destruct (dlit 0 <? rate_ (S_ (after_rate resolution_ms lag n)))%D;
      [|constructor].
    constructor; [|constructor]. simpl fst.
    pose proof (after_rate_spec resolution_ms lag n) as A. cbv zeta in A.
    destruct HC as [HR HL].
    destruct (input_current_ (S_ n) ==? currents_ (B_ n) lag)%D eqn:E;
      simpl in A; destruct A as [A1 A2].
    + rewrite A2, HL, HR.
      rewrite (rate_of_current_congr (P_ n) _ _ E). reflexivity.
    + rewrite A2, A1. reflexivity.
  - unfold update, for_lags.
    replace (Z.to_nat (to - from)) with (S (Z.to_nat (to - from - 1))) by lia.
    rewrite (loop_rate_of_current T _ from n HC). do 2 f_equal. lia.
Qed.

End FollowsCurrent.

(** ** Cutting a slice of the linear variant *)

Section Cutting.
Import cd_poisson_generator.
Context {D : Type} {arith : Double D} {random : RandomDev D}.
Variable resolution_ms : D.

(** The linear variant treats a slice step by step: for [from < mid < to],
    [update] over [[from, to)] is [update] over [[from, mid)] followed by
    [update] over [[mid, to)], in the state it leaves and in what it does. *)
Theorem update_splits (T from mid to : Z) (n : cd_poisson_generator) :
  from < mid < to ->
  let r1 := update resolution_ms T from mid n in
  let r2 := update resolution_ms T mid to (state_of r1) in
  state_of (update resolution_ms T from to n) = state_of r2 /\
  log_of (update resolution_ms T from to n) = log_of r1 ++ log_of r2.
Proof.
  intros H. cbv zeta. unfold update, for_lags.
  replace (Z.to_nat (to - from))
    with (Z.to_nat (mid - from) + Z.to_nat (to - mid))%nat by lia.
  rewrite for_each_lag_split.
  replace (from + Z.of_nat (Z.to_nat (mid - from))) with mid by lia.
  rewrite state_bind, log_bind.
  destruct (fst (fst (for_each_lag (Z.to_nat (mid - from)) from
                        (fun lag _ => update_step resolution_ms T lag) tt n))).
  split; reflexivity.
Qed.

End Cutting.

(** ** A slice of four steps, on binary64 *)

Section FourSteps.
Import rbf_poisson_generator.

(** On binary64, a slice of four steps whose currents are 0, 0, 2 and 2 has
    the average 1.0, and [update] stores the rate of 1.0: for every node,
    every time and every place of the slice. *)
Theorem slice_average_binary64 (libm : StdExp float) (random : RandomDev float)
    (resolution_ms : float) (T from : Z) (g : rbf_poisson_generator) :
  let b := currents_ (B_ g) in
  b from = 0%float -> b (from + 1) = 0%float ->
  b (from + 2) = 2%float -> b (from + 3) = 2%float ->
  (slice_sum b from (from + 4) / dfloat (from + 4 - from))%D = 1%float /\
  rate_ (S_ (state_of (update resolution_ms T from (from + 4) g))) =
  rate_of_average (P_ g) 1%float.
Proof.
  intros b H0 H1 H2 H3.
  assert (HA : (slice_sum b from (from + 4) / dfloat (from + 4 - from))%D = 1%float).
  { unfold slice_sum, slice.
    replace (from + 4 - from) with 4 by lia.
    change (Z.to_nat 4) with 4%nat. simpl.
    replace (from + 1 + 1) with (from + 2) by lia.
    replace (from + 2 + 1) with (from + 3) by lia.
    rewrite H0, H1, H2, H3. vm_compute. reflexivity. }
  split; [exact HA|].
  rewrite rbf_update_rate. fold b. rewrite HA. reflexivity.
Qed.

End FourSteps.

(** ** Runs for the contracts and bounds *)

Section LinearBoundRuns.
Import cd_poisson_generator Examples.

(** The configuration [min_current = max_current = 1] is accepted, and the
    rate of the input current NaN is computed with the division of NaN by
    [1 - 1 = 0]. *)
Lemma C9_witness :
  let p := fst (Parameters_set equal_currents_traced Parameters_default) in
  snd (Parameters_set equal_currents_traced Parameters_default) = Returns tt /\
  In (nan, 0%float) (Traced.divisions (rate_of_current p (Traced.pure nan))).
Proof.
  intros p.
  destruct (C9_division_by_zero equal_currents_traced Parameters_default)
    as (HR & _ & _ & HN); try (vm_compute; reflexivity).
  split; [exact HR|].
  destruct (HN (Traced.pure nan)) as (_ & _ & H & _); [reflexivity|].
  exact H.
Defined.

(** With [min_current = max_current = 1], the input current 0.5 gets
    [min_rate = 1], and nothing is divided. *)
Lemma equal_currents_saturate_witness :
  let p := fst (Parameters_set equal_currents_traced Parameters_default) in
  rate_of_current p (Traced.pure 0.5%float) = (1%float, []).
Proof.
  intros p.
  assert (H1 : (max_current_ p ==? min_current_ p)%D = true)
    by (vm_compute; reflexivity).
  assert (H2 : PrimFloat.is_nan (Traced.value (Traced.pure 0.5%float)) = false)
    by (vm_compute; reflexivity).
  destruct (equal_currents_saturate p (Traced.pure 0.5%float) H1 H2)
    as [[_ H]|[H _]].
  - rewrite H. vm_compute. reflexivity.
  - vm_compute in H. discriminate H.
Defined.



(** On binary64 a calibrated node with the currents 0.5 and 0 at the steps 0
    and 1 leaves the slice [[0, 2)] with the rate 1 of the current 0. *)
Lemma rate_follows_current_witness :
  let n := state_of (calibrate resolution
                       (node Parameters_default 0%float (pulse 0.5%float) [1; 2])) in
  rate_ (S_ (state_of (update resolution 0 0 2 n))) = 1%float.
Proof.
  intros n.
  assert (HC : consistent resolution n) by (split; vm_compute; reflexivity).
  assert (Hlt : 0 < 2) by lia.
  destruct (rate_follows_current resolution 0 0 2 0 n HC Hlt) as [_ H].
  rewrite H. vm_compute. reflexivity.
Defined.

(** The slice [[0, 3)] is the slice [[0, 1)] followed by the slice
    [[1, 3)]. *)
Lemma update_splits_witness :
  let n := node Parameters_default 0%float (pulse 0.5%float) [1; 0; 2] in
  log_of (update resolution 0 0 3 n) =
  log_of (update resolution 0 0 1 n)
  ++ log_of (update resolution 0 1 3 (state_of (update resolution 0 0 1 n))).
Proof.
  intros n.
  assert (H : 0 < 1 < 3) by lia.
  destruct (update_splits resolution 0 0 1 3 n H) as [_ HL]. exact HL.
Defined.

End LinearBoundRuns.

Section GaussianContractRuns.
Import rbf_poisson_generator Examples.

(** In exact arithmetic, with the default parameters, the average current
    0, the centre, gives the rate 10, in the map and in a slice.  On
    binary64, with the rates 1 and 10 of the default parameters, the rate at
    the centre is [1 + 1 * (10 - 1)]. *)
Lemma C2_witness :
  rate_of_average Parameters_default 0%R = 10%R /\
  rate_ (S_ (state_of (update 1%R 0 0 1 rbf_rest))) = 10%R /\
  rate_of_average (libm := exp_at_zeros) Parameters_default 0%float =
  (1 + 1 * (10 - 1))%float.
Proof.
  destruct C2_gaussian_rate_contract as (HG & HB & HE).
  assert (Hs : sigma_current_rbf_ (Parameters_default (D := R)) <> 0%R)
    by (simpl; lra).
  destruct (HE Parameters_default 0%R Hs) as [_ H2].
  split; [apply H2; reflexivity|]. split.
  - rewrite (HG R exact exact_exp (scripted R) 1%R 0 0 1 rbf_rest).
    unfold slice_sum, slice. simpl. change (IZR (1 - 0)) with 1%R.
    match goal with |- context [exp ?x] =>
      replace x with 0%R by (unfold Rdiv; lra) end.
    rewrite exp_0. lra.
  - assert (Hexp : forall x : float,
               PrimFloat.eqb x 0 = true -> dexp (StdExp := exp_at_zeros) x = 1%float)
      by (intros x Hx; simpl; rewrite Hx; reflexivity).
    assert (B1 : PrimFloat.eqb 0 (mean_current_rbf_ (Parameters_default (D := float)))
                 = true) by (vm_compute; reflexivity).
    assert (B2 : PrimFloat.is_infinity
                   (mean_current_rbf_ (Parameters_default (D := float))) = false)
      by (vm_compute; reflexivity).
    assert (B3 : PrimFloat.is_nan
                   (dlit 2 * sigma_current_rbf_ (Parameters_default (D := float))
                    * sigma_current_rbf_ (Parameters_default (D := float)))%D = false)
      by (vm_compute; reflexivity).
    assert (B4 : PrimFloat.eqb
                   (dlit 2 * sigma_current_rbf_ (Parameters_default (D := float))
                    * sigma_current_rbf_ (Parameters_default (D := float)))%D 0 = false)
      by (vm_compute; reflexivity).
    exact (proj2 (HB exp_at_zeros Parameters_default 0%float Hexp B1 B2 B3 B4)).
Defined.

(** On binary64, with the accepted rates 0.3 and 0.9, [sigma_current = 1]
    and an average current equal to [mean_current = 0], the argument of
    [exp] is a zero, and [min_rate + 1 * (max_rate - min_rate)] is the
    double 0.9000000000000001, above [max_rate]: this is the rate of the
    map and of a slice, for every [exp] that is 1 at the zeros. *)
Lemma C2_counterexample :
  snd (Parameters_set ∅ uneven_rates) = Returns tt /\
  PrimFloat.eqb (gaussian_argument uneven_rates 0%float) 0 = true /\
  (min_rate_rbf_ uneven_rates
   + 1 * (max_rate_rbf_ uneven_rates - min_rate_rbf_ uneven_rates))%float =
  0x1.ccccccccccccep-1%float /\
  PrimFloat.ltb (max_rate_rbf_ uneven_rates) 0x1.ccccccccccccep-1%float = true /\
  (forall libm : StdExp float,
     (forall x : float, PrimFloat.eqb x 0 = true -> dexp x = 1%float) ->
     rate_of_average uneven_rates (mean_current_rbf_ uneven_rates) =
     0x1.ccccccccccccep-1%float /\
     rate_ (S_ (state_of (update resolution 0 0 1
                            (rbf_node uneven_rates 5%float 0%float clear)))) =
     0x1.ccccccccccccep-1%float).
Proof.
  split; [vm_compute; reflexivity|]. split; [vm_compute; reflexivity|].
  split; [vm_compute; reflexivity|]. split; [vm_compute; reflexivity|].
  intros libm Hexp.
  assert (E : dexp (gaussian_argument uneven_rates 0%float) = 1%float)
    by (apply Hexp; vm_compute; reflexivity).
  assert (R0 : rate_of_average uneven_rates 0%float = 0x1.ccccccccccccep-1%float).
  { unfold rate_of_average. cbv zeta. rewrite E. vm_compute. reflexivity. }
  split; [exact R0|].
  rewrite rbf_update_rate.
  replace (slice_sum (currents_ (B_ (rbf_node uneven_rates 5%float 0%float clear))) 0 1
           / dfloat (1 - 0))%D with 0%float by (vm_compute; reflexivity).
  exact R0.
Qed.

(** In exact arithmetic a slice of four steps with the currents 0, 0, 2, 2:
    the four values are read, their average is 1, and the rate and the
    Poisson mean are those of the average.  On binary64 the divisor of a
    slice of four steps is the double 4. *)
Lemma C4_witness :
  let r := update 1%R 0 0 4 (rbf_exact Parameters_default ramp) in
  drained (log_of r) = [(0, 0%R); (1, 0%R); (2, 2%R); (3, 2%R)] /\
  rate_ (S_ (state_of r)) = rate_of_average Parameters_default 1%R /\
  lambdas (log_of r) = [(1 * rate_of_average Parameters_default 1 * (1 / 1000))%R] /\
  (dfloat (4 - 0) : float) = dlit (4 - 0).
Proof.
  intros r. destruct C4_slice_averaging as (HG & HB & _).
  assert (Hlt : 0 < 4) by lia.
  destruct (HG R exact exact_exp (scripted R) 1%R 0 0 4
              (rbf_exact Parameters_default ramp) Hlt)
    as (HD & _ & _ & _ & HR & HL).
  fold r in HD, HR, HL.
  assert (HA : (fold_left dadd
                  (map snd (slice (currents_ (B_ (rbf_exact Parameters_default ramp))) 0 4))
                  (dlit 0) / dfloat (4 - 0))%D = 1%R).
  { unfold slice, ramp. simpl. change (IZR (4 - 0)) with 4%R. lra. }
  rewrite HA in HR, HL.
  split; [exact HD|]. split; [exact HR|]. split; [exact HL|].
  assert (H4 : 0 < 4 - 0 <= 2 ^ 24) by lia.
  destruct (HB exp_at_zeros (scripted float) resolution 0 0 4
              (rbf_node Parameters_default 5%float 0%float ramp64) H4) as [H _].
  exact H.
Defined.

(** On binary64 a slice of [2^24 + 1] steps is averaged over [2^24]:
    [(float)(2^24 + 1)] is the double [2^24], which is not the number of
    steps, and a sum of [2^24 + 1] over it is not 1. *)
Lemma C4_counterexample :
  (dfloat (2 ^ 24 + 1) : float) = dlit (2 ^ 24) /\
  PrimFloat.eqb (dlit (2 ^ 24)) (dlit (2 ^ 24 + 1)) = false /\
  (dlit (2 ^ 24 + 1) / dfloat (2 ^ 24 + 1))%D = 0x1.000001p0%float /\
  (dlit (2 ^ 24 + 1) / dlit (2 ^ 24 + 1))%D = 1%float /\
  (forall libm : StdExp float,
     rate_ (S_ (state_of (update resolution 0 0 (2 ^ 24 + 1)
                            (rbf_node Parameters_default 5%float 0%float ramp64)))) =
     rate_of_average Parameters_default
       (slice_sum ramp64 0 (2 ^ 24 + 1) / dlit (2 ^ 24))%D).
Proof.
  split; [vm_compute; reflexivity|]. split; [vm_compute; reflexivity|].
  split; [vm_compute; reflexivity|]. split; [vm_compute; reflexivity|].
  intros libm. rewrite rbf_update_rate.
  assert (E : (dfloat (2 ^ 24 + 1 - 0) : float) = dlit (2 ^ 24))
    by (vm_compute; reflexivity).
  rewrite E. reflexivity.
Qed.

(** The slice [[0, 4)] of the currents 0, 0, 2, 2 has the average 1.0. *)
Lemma slice_average_binary64_witness :
  (slice_sum ramp64 0 (0 + 4) / dfloat (0 + 4 - 0))%D = 1%float.
Proof.
  assert (H0 : ramp64 0 = 0%float) by reflexivity.
  assert (H1 : ramp64 (0 + 1) = 0%float) by reflexivity.
  assert (H2 : ramp64 (0 + 2) = 2%float) by reflexivity.
  assert (H3 : ramp64 (0 + 3) = 2%float) by reflexivity.
  destruct (slice_average_binary64 exp_at_zeros (scripted float) resolution 0 0
              (rbf_node Parameters_default 5%float 0%float ramp64) H0 H1 H2 H3)
    as [H _].
  exact H.
Defined.

End GaussianContractRuns.
